(** * Annotation validation of deriva-py ([deriva/core/annotation.py])

    A shallow embedding of the annotation validator: the five semantic
    keyword validators, the lazy schema container and the orchestrating
    [validate] / [_validate] functions, followed by the properties proved
    about them.

    Conventions of the embedding.
    - JSON values are the Python objects [json.loads] produces: [None],
      [bool], [int], [float], [str], [list] and [dict] (string keys, kept
      in insertion order).
    - Python objects of the catalog model live in a heap: an object is an
      identity ([ident]) and the heap gives its attributes.  [hasattr] is
      the presence of an optional attribute, [!=] on model objects is
      identity comparison.
    - A Python call either returns or raises: [exc A].  The module-level
      schema container is threaded explicitly ([M A]).
    - A message built with the [%] operator is kept as its format string
      and its arguments ([Message]); [render] gives the text when every
      argument is a [str], the case in which [%s] inserts it unchanged.
    - Strings are sequences of 8-bit characters.
    - [logger] calls only emit diagnostics and are left out. *)

From Stdlib Require Import ZArith Ascii Floats.SpecFloat.
From stdpp Require Import gmap strings list.

Set Default Proof Using "Type".
Set Warnings "-register-all,-clear-no-such-hyp".

(** ** JSON values *)

Inductive json : Type :=
| JNull
| JBool (b : bool)
| JInt (z : Z)
| JFloat (f : spec_float)
| JStr (s : string)
| JList (l : list json)
| JDict (d : list (string * json)).

(** A [dict] with [str] keys, in insertion order. *)
Abbreviation dict := (list (string * json)).

(** [k in d] *)
Definition dict_has (d : dict) (k : string) : bool :=
  existsb (fun kv => bool_decide (kv.1 = k)) d.

(** [d[k]], [None] standing for the [KeyError] of a missing key *)
Fixpoint dict_lookup (d : dict) (k : string) : option json :=
  match d with
  | [] => None
  | (k', v) :: d' => if bool_decide (k' = k) then Some v else dict_lookup d' k
  end.

(** [d.get(k, default)] *)
Definition dict_get (d : dict) (k : string) (default : json) : json :=
  match dict_lookup d k with
  | Some v => v
  | None => default
  end.

(** Python truth value of a JSON value ([if not value]). *)
Definition truthy (v : json) : bool :=
  match v with
  | JNull => false
  | JBool b => b
  | JInt z => negb (z =? 0)%Z
  | JFloat (S754_zero _) => false
  | JFloat _ => true
  | JStr s => negb (bool_decide (s = EmptyString))
  | JList l => negb (bool_decide (l = []))
  | JDict d => negb (bool_decide (d = []))
  end.

(** [list] and [dict] are unhashable. *)
Definition hashable (v : json) : bool :=
  match v with
  | JList _ | JDict _ => false
  | _ => true
  end.

(** [isinstance(item, list) and len(item) == 2] *)
Definition is_pair (item : json) : bool :=
  match item with
  | JList [_; _] => true
  | _ => false
  end.

(** A number as [==] sees it: [bool], [int] and [float] are compared by
    value, [True] being 1 and [False] 0; a finite one is
    [(-1)^negative * m * 2^e]. *)
Inductive number : Type :=
| NumZero
| NumFinite (negative : bool) (m : positive) (e : Z)
| NumInf (negative : bool)
| NumNaN.

Definition number_of (v : json) : option number :=
  match v with
  | JBool b => Some (if b then NumFinite false 1 0 else NumZero)
  | JInt z =>
    Some match z with
         | Z0 => NumZero
         | Zpos p => NumFinite false p 0
         | Zneg p => NumFinite true p 0
         end
  | JFloat f =>
    Some match f with
         | S754_zero _ => NumZero
         | S754_infinity s => NumInf s
         | S754_nan => NumNaN
         | S754_finite s m e => NumFinite s m e
         end
  | _ => None
  end.

Definition number_eq (x y : number) : bool :=
  match x, y with
  | NumZero, NumZero => true
  | NumFinite s1 m1 e1, NumFinite s2 m2 e2 =>
    Bool.eqb s1 s2 &&
    (Z.pos m1 * 2 ^ (e1 - Z.min e1 e2) =? Z.pos m2 * 2 ^ (e2 - Z.min e1 e2))%Z
  | NumInf s1, NumInf s2 => Bool.eqb s1 s2
  | _, _ => false
  end.

(** [x == y] for two hashable JSON values: [None] equals [None], a [str]
    an equal [str], numbers by value ([nan] equals no number). *)
Definition py_eq (x y : json) : bool :=
  match x, y with
  | JNull, JNull => true
  | JStr a, JStr b => bool_decide (a = b)
  | _, _ =>
    match number_of x, number_of y with
    | Some n1, Some n2 => number_eq n1 n2
    | _, _ => false
    end
  end.

(** ** Exceptions *)

(** The result of the [%] operator, kept symbolic. *)
Record Message := Msg { fmt : string; fargs : list json }.

(** The exception classes other than [ValidationError]; [OtherError] is
    any class that is none of these (nor a subclass of one of them). *)
Inductive builtin_exn : Type :=
| KeyError
| FileNotFoundError
| AttributeError
| TypeError
| OtherError (class_name : string).

(** [jsonschema.ValidationError]: the fields the validators set.  The
    [validator] field holds the engine object itself and is not kept. *)
Module ValidationError.
Record t := mk {
  message : Message;
  cause : option builtin_exn;
  validator_value : option json;
  instance : option json;
  schema : option json
}.
End ValidationError.

Inductive exn : Type :=
| ValidationErr (e : ValidationError.t)
| Builtin (b : builtin_exn).

Inductive exc (A : Type) : Type :=
| Ok (a : A)
| Raise (e : exn).
Arguments Ok {A} a.
Arguments Raise {A} e.

#[global] Instance exc_ret : MRet exc := fun A a => Ok a.
#[global] Instance exc_bind : MBind exc := fun A B k m =>
  match m with
  | Ok a => k a
  | Raise e => Raise e
  end.

(** [getattr(obj, name)] of an optional attribute. *)
Definition getattr {A} (a : option A) : exc A :=
  match a with
  | Some x => Ok x
  | None => Raise (Builtin AttributeError)
  end.

(** [x in s] for a [set] of [str]: hashing an unhashable [x] raises
    [TypeError]; a hashable [x] that is not a [str] equals no element. *)
Definition in_str_set (x : json) (s : gset string) : exc bool :=
  match x with
  | JStr n => Ok (bool_decide (n ∈ s))
  | JList _ | JDict _ => Raise (Builtin TypeError)
  | _ => Ok false
  end.

(** [tuple(item) in s] for a two-element [item] and a [set] of pairs of
    [str]. *)
Definition pair_in_set (a b : json) (s : gset (string * string)) : exc bool :=
  if hashable a && hashable b then
    match a, b with
    | JStr x, JStr y => Ok (bool_decide ((x, y) ∈ s))
    | _, _ => Ok false
    end
  else Raise (Builtin TypeError).

(** ** The catalog model, as far as the validators read it *)

(** Identity of a model object. *)
Definition ident := nat.

Module Column.
Record t := mk { name : string }.
End Column.

(** [constraint_schema] is [None] or a schema object of which only the
    name is read. *)
Module Key.
Record t := mk {
  constraint_schema : option string;
  constraint_name : string
}.
End Key.

Module ForeignKey.
Record t := mk {
  constraint_schema : option string;
  constraint_name : string;
  table : ident;
  pk_table : ident
}.
End ForeignKey.

(** [model.fkey(constraint_name)] is a method of [ermrest_model.Model]; the
    validators only call it, so a model is given by that method. *)
Module Model.
Record t := mk { fkey : json -> exc ForeignKey.t }.
End Model.

Module Schema.
Record t := mk { name : string; model : Model.t }.
End Schema.

(** A model object as the validators see it: [annotations] and the
    optional attributes they test with [hasattr]. *)
Module ModelObj.
Record t := mk {
  annotations : dict;
  table : option ident;
  schema : option Schema.t;
  name : option string;
  column_definitions : option (list Column.t);
  keys : option (list Key.t);
  foreign_keys : option (list (option ForeignKey.t))
}.
End ModelObj.

Definition heap := ident -> ModelObj.t.

(** [{c.name for c in column_definitions}] *)
Definition column_names (cds : list Column.t) : gset string :=
  list_to_set (Column.name <$> cds).

(** [constraint_schema.name if constraint_schema else ''] *)
Definition schema_name_or_empty (s : option string) : string :=
  match s with
  | Some n => n
  | None => EmptyString
  end.

(** ** Semantic validators *)

(** A keyword validator [f(validator, value, instance, schema)]. *)
Definition ValidatorFn := json -> json -> json -> exc unit.

Definition _nop : ValidatorFn := fun value instance schema => Ok tt.

(** [ValidationError(msg, validator=validator, validator_value=value,
    instance=instance, schema=schema)] *)
Definition keyword_error (m : Message) (cause : option builtin_exn)
    (value instance schema : json) : exn :=
  ValidationErr (ValidationError.mk m cause (Some value) (Some instance) (Some schema)).

(** [ValidationError(msg)] *)
Definition plain_error (m : Message) : exn :=
  ValidationErr (ValidationError.mk m None None None None).

(** *** [_validate_sort_key_fn] *)

Definition _validate_sort_key_fn (h : heap) (model_obj : ident) : ValidatorFn :=
  let model_obj :=
    match ModelObj.table (h model_obj) with
    | Some t => t
    | None => model_obj
    end in
  match ModelObj.column_definitions (h model_obj) with
  | None => _nop
  | Some cds =>
    let _column_names := column_names cds in
    fun value instance schema =>
      if negb (truthy value) then Ok tt
      else
        let col_name :=
          match instance with
          | JStr _ => instance
          | JDict d => dict_get d "column" JNull
          | _ => JNull
          end in
        if truthy col_name then
          found ← in_str_set col_name _column_names;
          if negb found then
            Raise (keyword_error (Msg "'%s' not found in column definitions" [instance])
                     None value instance schema)
          else Ok tt
        else Ok tt
  end.

(** *** [_validate_columns_fn] *)

Definition key_names (ks : list Key.t) : gset (string * string) :=
  list_to_set
    ((fun k => (schema_name_or_empty (Key.constraint_schema k), Key.constraint_name k)) <$> ks).

Definition fkey_names (fks : list (option ForeignKey.t)) : gset (string * string) :=
  list_to_set
    ((fun fk => (schema_name_or_empty (ForeignKey.constraint_schema fk),
                 ForeignKey.constraint_name fk)) <$> omap id fks).

(** The body of the [for item in instance] loop and the loop itself. *)
Definition check_column_item (_column_names : gset string)
    (_constraint_names : gset (string * string))
    (value instance schema : json) (item : json) : exc unit :=
  match item with
  | JStr s =>
    if bool_decide (s ∉ _column_names) then
      Raise (keyword_error (Msg "'%s' not found in column definitions" [item])
               None value instance schema)
    else Ok tt
  | JList [a; b] =>
    found ← pair_in_set a b _constraint_names;
    if negb found then
      Raise (keyword_error (Msg "'%s' not found in keys or foreign keys" [item])
               None value instance schema)
    else Ok tt
  | _ => Ok tt
  end.

Fixpoint for_each {A} (body : A -> exc unit) (l : list A) : exc unit :=
  match l with
  | [] => Ok tt
  | x :: l' => _ ← body x; for_each body l'
  end.

Definition _validate_columns_fn (h : heap) (model_obj : ident) : ValidatorFn :=
  match ModelObj.column_definitions (h model_obj),
        ModelObj.keys (h model_obj),
        ModelObj.foreign_keys (h model_obj) with
  | Some cds, Some ks, Some fks =>
    let _column_names := column_names cds in
    let _key_names := key_names ks in
    let _fkey_names := fkey_names fks in
    let _constraint_names := _key_names ∪ _fkey_names in
    fun value instance schema =>
      if negb (truthy value) then Ok tt
      else
        match instance with
        | JList items =>
          for_each (check_column_item _column_names _constraint_names value instance schema) items
        | _ => Ok tt
        end
  | _, _, _ => _nop
  end.

(** *** [_validate_foreign_keys_fn] *)

(** The [try] / [except KeyError] around the lookup of one pair. *)
Definition check_foreign_key (h : heap) (model : Model.t) (table : ident)
    (value instance schema : json) (constraint_name : json) : exc unit :=
  match Model.fkey model constraint_name with
  | Ok fkey =>
    if bool_decide (ForeignKey.pk_table fkey ≠ table) then
      table_name ← getattr (ModelObj.name (h table));
      Raise (plain_error (Msg "%s does not refer to '%s'" [constraint_name; JStr table_name]))
    else Ok tt
  | Raise (Builtin KeyError) =>
    Raise (keyword_error (Msg "%s not found in foreign keys of model" [constraint_name])
             (Some KeyError) value instance schema)
  | Raise e => Raise e
  end.

(** The loop, with its [break] at the first item that is not a pair. *)
Fixpoint foreign_keys_loop (check : json -> exc unit) (items : list json) : exc unit :=
  match items with
  | [] => Ok tt
  | item :: rest =>
    if negb (is_pair item) then Ok tt
    else _ ← check item; foreign_keys_loop check rest
  end.

Definition _validate_foreign_keys_fn (h : heap) (model_obj : ident) : ValidatorFn :=
  match ModelObj.schema (h model_obj) with
  | None => _nop
  | Some sch =>
    let table := model_obj in
    let model := Schema.model sch in
    fun value instance schema =>
      if negb (truthy value) then Ok tt
      else
        match instance with
        | JList items =>
          foreign_keys_loop (check_foreign_key h model table value instance schema) items
        | _ => Ok tt
        end
  end.

(** *** [_validate_source_entry_fn] *)

(** [[current_table.schema.name, current_table.name]] *)
Definition qualified_name (h : heap) (current_table : ident) : exc json :=
  sch ← getattr (ModelObj.schema (h current_table));
  n ← getattr (ModelObj.name (h current_table));
  Ok (JList [JStr (Schema.name sch); JStr n]).

(** The triples [(direction, match_with_table, update_current_table)], the
    attribute names standing for their [getattr]. *)
Definition directions : list (string * (ForeignKey.t -> ident) * (ForeignKey.t -> ident)) :=
  [ ("outbound", ForeignKey.table, ForeignKey.pk_table);
    ("inbound", ForeignKey.pk_table, ForeignKey.table) ].

(** One round of the inner [for direction, ... in [...]] loop: returns the
    current table after it. *)
Definition follow_direction (h : heap) (_model : Model.t) (value instance schema : json)
    (item : dict) (current_table : ident)
    (d : string * (ForeignKey.t -> ident) * (ForeignKey.t -> ident)) : exc ident :=
  let '(direction, match_with_table, update_current_table) := d in
  match dict_lookup item direction with
  | None => Ok current_table
  | Some constraint_name =>
    match Model.fkey _model constraint_name with
    | Ok fkey =>
      if bool_decide (match_with_table fkey ≠ current_table) then
        qn ← qualified_name h current_table;
        Raise (keyword_error
                 (Msg "%s foreign key %s not associated with %s"
                    [JStr direction; constraint_name; qn])
                 None value instance schema)
      else Ok (update_current_table fkey)
    | Raise (Builtin KeyError) =>
      Raise (keyword_error (Msg "%s not found in model fkeys" [constraint_name])
               (Some KeyError) value instance schema)
    | Raise e => Raise e
    end
  end.

Fixpoint follow_directions (h : heap) (_model : Model.t) (value instance schema : json)
    (item : dict) (current_table : ident)
    (ds : list (string * (ForeignKey.t -> ident) * (ForeignKey.t -> ident))) : exc ident :=
  match ds with
  | [] => Ok current_table
  | d :: ds' =>
    t ← follow_direction h _model value instance schema item current_table d;
    follow_directions h _model value instance schema item t ds'
  end.

(** [any(isinstance(item[io], list) and len(item[io]) == 2
        for io in ['inbound', 'outbound'] if io in item)] *)
Definition is_fkey_step (item : dict) : bool :=
  existsb
    (fun io => match dict_lookup item io with
               | Some v => is_pair v
               | None => false
               end)
    (filter (fun io => dict_has item io = true) ["inbound"; "outbound"]).

(** The [for item in instance] loop of the path case, [current_table] being
    the loop's state. *)
Fixpoint source_path_loop (h : heap) (_model : Model.t) (value instance schema : json)
    (current_table : ident) (items : list json) : exc unit :=
  match items with
  | [] => Ok tt
  | item :: rest =>
    match item with
    | JStr s =>
      cds ← getattr (ModelObj.column_definitions (h current_table));
      if bool_decide (s ∉ column_names cds) then
        qn ← qualified_name h current_table;
        Raise (keyword_error
                 (Msg "'%s' not found in column definitions of table %s" [item; qn])
                 None value instance schema)
      else source_path_loop h _model value instance schema current_table rest
    | JDict d =>
      if is_fkey_step d then
        t ← follow_directions h _model value instance schema d current_table directions;
        source_path_loop h _model value instance schema t rest
      else Ok tt
    | _ => Ok tt
    end
  end.

Definition _validate_source_entry_fn (h : heap) (model_obj : ident) : ValidatorFn :=
  match ModelObj.column_definitions (h model_obj), ModelObj.schema (h model_obj) with
  | Some cds, Some sch =>
    let _base_column_names := column_names cds in
    let _model := Schema.model sch in
    fun value instance schema =>
      if negb (truthy value) then Ok tt
      else
        match instance with
        | JStr s =>
          if bool_decide (s ∉ _base_column_names) then
            Raise (keyword_error (Msg "'%s' not found in column definitions" [instance])
                     None value instance schema)
          else Ok tt
        | JList items => source_path_loop h _model value instance schema model_obj items
        | _ => Ok tt
        end
  | _, _ => _nop
  end.

(** ** What the module imports

    The tag registry ([ermrest_model.tag]), the schema resources of the
    package and the [jsonschema] engine are not part of the module; they
    are the environment it runs in.
    - [tag]: the items of the registry, attribute name and tag name, in
      order.
    - [load_resource path]: [json.loads(pkgutil.get_data(core.__name__,
      path).decode())], which raises [FileNotFoundError] when the resource
      does not exist.
    - [RefResolver_from_schema schema store]:
      [jsonschema.RefResolver.from_schema(schema, store=store)].
    - [validator_validate schema resolver keywords instance]: the call
      [ExtendedValidator(schema, resolver=resolver).validate(instance)] of
      the Draft 7 validator class extended with the table [keywords]; it
      returns, or raises the first error. *)
Record Env := {
  tag : list (string * string);
  load_resource : string -> exc json;
  Resolver : Type;
  RefResolver_from_schema : json -> list (json * json) -> exc Resolver;
  validator_validate :
    json -> Resolver -> list (string * ValidatorFn) -> json -> exc unit
}.

(** The state of the [_AnnotationSchemas] instance [_schemas]: its
    [self._schemas] dict. *)
Abbreviation cache := (gmap string json).

(** Calls that may raise and may fill the cache. *)
Definition M (A : Type) : Type := cache -> exc A * cache.

#[global] Instance M_ret : MRet M := fun A a st => (Ok a, st).
#[global] Instance M_bind : MBind M := fun A B k m st =>
  match m st with
  | (Ok a, st') => k a st'
  | (Raise e, st') => (Raise e, st')
  end.

Definition lift {A} (r : exc A) : M A := fun st => (r, st).

Section Annotation.
Variable env : Env.

(** [tag.<attr>] *)
Definition tag_attr (attr : string) : exc string :=
  getattr (snd <$> find (fun kv => bool_decide (kv.1 = attr)) (tag env)).

(** [self._abbrev = dict((v, k) for k, v in tag.items())] *)
Definition _abbrev : gmap string string :=
  foldl (fun m kv => <[kv.2 := kv.1]> m) ∅ (tag env).

(** ['schemas/%s.schema.json' % abbrev] *)
Definition schema_path (abbrev : string) : string :=
  "schemas/" +:+ abbrev +:+ ".schema.json".

(** [_AnnotationSchemas.__getitem__] *)
Definition _schemas_getitem (key : string) : M json := fun _schemas =>
  match _schemas !! key with
  | Some v => (Ok v, _schemas)
  | None =>
    match _abbrev !! key with
    | None => (Raise (Builtin KeyError), _schemas)
    | Some abbrev =>
      match load_resource env (schema_path abbrev) with
      | Ok v => (Ok v, <[key := v]> _schemas)
      | Raise e => (Raise e, _schemas)
      end
    end
  end.

(** [v[key]] for a JSON value [v] and a [str] key. *)
Definition subscript (v : json) (key : string) : exc json :=
  match v with
  | JDict d =>
    match dict_lookup d key with
    | Some x => Ok x
    | None => Raise (Builtin KeyError)
    end
  | _ => Raise (Builtin TypeError)
  end.

(** The module-level [_schema_store = { _schemas[tag_name]['$id']:
    _schemas[tag_name] for tag_name in [tag.export, tag.source_definitions] }],
    a dict given by its items.  [store_entry] evaluates the key and the
    value of one tag.  The second key falls on the first when it is the
    same object (the two tags are one tag, read twice from the container)
    or equal to it; the dict then keeps the first key with the second
    value. *)
Definition store_entry (tag_name : string) : M (json * json) :=
  s ← _schemas_getitem tag_name;
  k ← lift (subscript s "$id");
  _ ← lift (if hashable k then Ok tt else Raise (Builtin TypeError));
  v ← _schemas_getitem tag_name;
  mret (k, v).

Definition _schema_store_init : M (list (json * json)) :=
  t1 ← lift (tag_attr "export");
  t2 ← lift (tag_attr "source_definitions");
  e1 ← store_entry t1;
  e2 ← store_entry t2;
  mret (if bool_decide (t1 = t2) || py_eq e1.1 e2.1
        then [(e1.1, e2.2)]
        else [e1; e2]).

(** *** [_validate_source_key_fn] *)

(** [s in container] for a [str] [s]: key of a dict, element of a list,
    substring of a str; other JSON values are not iterable. *)
Fixpoint str_contains (sub s : string) : bool :=
  String.prefix sub s ||
  match s with
  | EmptyString => false
  | String _ s' => str_contains sub s'
  end.

Definition str_in (s : string) (container : json) : exc bool :=
  match container with
  | JDict d => Ok (dict_has d s)
  | JList l => Ok (existsb (fun x => match x with
                                     | JStr s' => bool_decide (s' = s)
                                     | _ => false
                                     end) l)
  | JStr s' => Ok (str_contains s s')
  | _ => Raise (Builtin TypeError)
  end.

(** [v.get(key, default)]: only a dict has the method. *)
Definition method_get (v : json) (key : string) (default : json) : exc json :=
  match v with
  | JDict d => Ok (dict_get d key default)
  | _ => Raise (Builtin AttributeError)
  end.

Definition _validate_source_key_fn (h : heap) (model_obj : ident) : exc ValidatorFn :=
  source_definitions ← tag_attr "source_definitions";
  sourcekeys ←
    method_get (dict_get (ModelObj.annotations (h model_obj)) source_definitions (JDict []))
      "sources" (JDict []);
  Ok (fun value instance schema =>
        if truthy value then
          match instance with
          | JStr s =>
            found ← str_in s sourcekeys;
            if negb found then
              Raise (keyword_error (Msg "'%s' not found in source definitions" [instance])
                       None value instance schema)
            else Ok tt
          | _ => Ok tt
          end
        else Ok tt).

(** ** The orchestrator *)

Variable _schema_store : list (json * json).

(** The [try] block of [_validate] once the schema is at hand: the resolver,
    the five keyword validators, the extended validator and its run on the
    annotation. *)
Definition validate_annotation (h : heap) (model_obj : ident) (tag_name : string)
    (schema : json) : exc unit :=
  resolver ← RefResolver_from_schema env schema _schema_store;
  let valid_columns := _validate_columns_fn h model_obj in
  valid_source_key ← _validate_source_key_fn h model_obj;
  let valid_source_entry := _validate_source_entry_fn h model_obj in
  let valid_foreign_keys := _validate_foreign_keys_fn h model_obj in
  let valid_sort_key := _validate_sort_key_fn h model_obj in
  let keywords :=
    [ ("valid-columns", valid_columns);
      ("valid-source-key", valid_source_key);
      ("valid-source-entry", valid_source_entry);
      ("valid-foreign-keys", valid_foreign_keys);
      ("valid-sort-key", valid_sort_key) ] in
  instance ← subscript (JDict (ModelObj.annotations (h model_obj))) tag_name;
  validator_validate env schema resolver keywords instance.

(** The [try] block of [_validate]. *)
Definition _validate_body (h : heap) (model_obj : ident) (tag_name : string) : M unit :=
  if dict_has (ModelObj.annotations (h model_obj)) tag_name then
    schema ← _schemas_getitem tag_name;
    lift (validate_annotation h model_obj tag_name schema)
  else mret tt.

(** ['Unknown annotation tag name "%s"' % tag_name] *)
Definition unknown_tag_message (tag_name : string) : Message :=
  Msg ("Unknown annotation tag name " +:+ String (Ascii.ascii_of_nat 34) "%s"
         +:+ String (Ascii.ascii_of_nat 34) EmptyString)
      [JStr tag_name].

(** [ValidationError(msg, cause=e)] of the [except KeyError] clause *)
Definition unknown_tag_error (tag_name : string) : ValidationError.t :=
  ValidationError.mk (unknown_tag_message tag_name) (Some KeyError) None None None.

(** The three [except] clauses of [_validate] and its final [return []],
    applied to the outcome of the [try] block. *)
Definition except_clauses (tag_name : string) (r : exc unit)
    : exc (list ValidationError.t) :=
  match r with
  | Ok _ => Ok []
  | Raise (ValidationErr e) => Ok [e]
  | Raise (Builtin KeyError) => Ok [unknown_tag_error tag_name]
  | Raise (Builtin FileNotFoundError) => Ok []
  | Raise e => Raise e
  end.

(** [_validate] *)
Definition _validate (h : heap) (model_obj : ident) (tag_name : string)
    : M (list ValidationError.t) := fun st =>
  let '(r, st') := _validate_body h model_obj tag_name st in
  (except_clauses tag_name r, st').

(** The loop [for tag_name in model_obj.annotations:
    errors.extend(_validate(model_obj, tag_name))]. *)
Fixpoint validate_each (h : heap) (model_obj : ident) (tag_names : list string)
    (errors : list ValidationError.t) : M (list ValidationError.t) :=
  match tag_names with
  | [] => mret errors
  | tag_name :: rest =>
    es ← _validate h model_obj tag_name;
    validate_each h model_obj rest (errors ++ es)
  end.

(** [validate(model_obj, tag_name=None)]; [not tag_name] holds for [None]
    and for the empty string. *)
Definition validate (h : heap) (model_obj : ident) (tag_name : option string)
    : M (list ValidationError.t) :=
  match tag_name with
  | Some t =>
    if bool_decide (t = EmptyString)
    then validate_each h model_obj (fst <$> ModelObj.annotations (h model_obj)) []
    else _validate h model_obj t
  | None => validate_each h model_obj (fst <$> ModelObj.annotations (h model_obj)) []
  end.

End Annotation.

(** ** Rendering of messages *)

(** [fmt % args] when every argument is a [str] (which [%s] inserts
    unchanged) and the format consumes them all; [None] otherwise, the text
    then depending on Python's [repr]. *)
Fixpoint render_fmt (fmt : string) (args : list json) : option string :=
  match fmt with
  | EmptyString =>
    match args with
    | [] => Some EmptyString
    | _ => None
    end
  | String "%"%char (String "s"%char rest) =>
    match args with
    | JStr a :: args' => (fun r => a +:+ r) <$> render_fmt rest args'
    | _ => None
    end
  | String "%"%char _ => None
  | String c rest => String c <$> render_fmt rest args
  end.

Definition render (m : Message) : option string := render_fmt (fmt m) (fargs m).

(** [sub] occurs in [s]. *)
Definition occurs_in (sub s : string) : Prop := ∃ pre post, s = pre +:+ sub +:+ post.

(** The error names the JSON value [v]: [v] is an argument of its message. *)
Definition references (e : ValidationError.t) (v : json) : Prop :=
  v ∈ fargs (ValidationError.message e).

(** ** Notions of the specification *)

(** [key] has an abbreviation in the registry. *)
Definition registered (env : Env) (key : string) : Prop := ∃ a, (a, key) ∈ tag env.

(** The container holds, for a tag, only the document loaded from the
    resource of its abbreviation. *)
Definition cache_ok (env : Env) (st : cache) : Prop :=
  ∀ key v, st !! key = Some v →
    ∃ a, _abbrev env !! key = Some a ∧ load_resource env (schema_path a) = Ok v.

(** Two containers answer every lookup alike. *)
Definition same_schemas (env : Env) (st st' : cache) : Prop :=
  ∀ key, (_schemas_getitem env key st).1 = (_schemas_getitem env key st').1.

(** The containers that calls of [validate], on any objects and tags, lead
    to from a given one. *)
Inductive later_container (env : Env) (store : list (json * json)) (st : cache)
    : cache -> Prop :=
| later_now : later_container env store st st
| later_call st' h model_obj tag_name :
    later_container env store st st' →
    later_container env store st (validate env store h model_obj tag_name st').2.

(** The three classes [_validate] handles; any other exception leaves it. *)
Definition handled (e : exn) : bool :=
  match e with
  | ValidationErr _ => true
  | Builtin KeyError => true
  | Builtin FileNotFoundError => true
  | _ => false
  end.

(** [s] is the name of a column of [cds]. *)
Definition names_column (cds : list Column.t) (s : string) : Prop :=
  ∃ c, c ∈ cds ∧ Column.name c = s.

(** [(x, y)] is the identity of a key of [ks] or of a foreign key of [fks]. *)
Definition names_constraint (ks : list Key.t) (fks : list (option ForeignKey.t))
    (x y : string) : Prop :=
  (∃ k, k ∈ ks ∧ schema_name_or_empty (Key.constraint_schema k) = x
               ∧ Key.constraint_name k = y) ∨
  (∃ fk, Some fk ∈ fks ∧ schema_name_or_empty (ForeignKey.constraint_schema fk) = x
                       ∧ ForeignKey.constraint_name fk = y).

(** An element the valid-columns keyword rejects. *)
Inductive column_violation (cds : list Column.t) (ks : list Key.t)
    (fks : list (option ForeignKey.t)) : json -> Prop :=
| unknown_column s :
    ¬ names_column cds s → column_violation cds ks fks (JStr s)
| unknown_constraint a b :
    (∀ x y, a = JStr x → b = JStr y → ¬ names_constraint ks fks x y) →
    column_violation cds ks fks (JList [a; b]).

(** The elements the valid-foreign-keys keyword looks at: those before the
    first one that is not a two-element list. *)
Fixpoint checked_prefix (items : list json) : list json :=
  match items with
  | [] => []
  | item :: rest => if is_pair item then item :: checked_prefix rest else []
  end.

(** A pair names a foreign key of the model whose parent is [table]. *)
Definition refers_to (model : Model.t) (table : ident) (item : json) : Prop :=
  ∃ fk, Model.fkey model item = Ok fk ∧ ForeignKey.pk_table fk = table.

(** A foreign-key path as the specification describes it, from the current
    table: column names of the current table, outbound steps from the child
    to the parent, inbound steps from the parent to the child. *)
Inductive valid_path (h : heap) (model : Model.t) : ident -> list json -> Prop :=
| path_end cur :
    valid_path h model cur []
| path_column cur cds s rest :
    ModelObj.column_definitions (h cur) = Some cds →
    names_column cds s →
    valid_path h model cur rest →
    valid_path h model cur (JStr s :: rest)
| path_outbound cur a b fk rest :
    Model.fkey model (JList [a; b]) = Ok fk →
    ForeignKey.table fk = cur →
    valid_path h model (ForeignKey.pk_table fk) rest →
    valid_path h model cur (JDict [("outbound", JList [a; b])] :: rest)
| path_inbound cur a b fk rest :
    Model.fkey model (JList [a; b]) = Ok fk →
    ForeignKey.pk_table fk = cur →
    valid_path h model (ForeignKey.table fk) rest →
    valid_path h model cur (JDict [("inbound", JList [a; b])] :: rest).

(** The elements of a path: a column name or a single-key step. *)
Inductive path_element : json -> Prop :=
| element_column s : path_element (JStr s)
| element_outbound a b : path_element (JDict [("outbound", JList [a; b])])
| element_inbound a b : path_element (JDict [("inbound", JList [a; b])]).

(** ** A small catalog and environment

    Two tables of a schema [s]: [T1] (identity 1) with columns [A] and [B]
    and the key [(schema1, K1)], [T2] (identity 2) with column [X]; the
    foreign keys [FK_out] from [T1] to [T2], [FK1] from [T2] to [T1] and
    [FK2] from [T2] to itself. *)

(** Modelled from the spec: [model.fkey(constraint_name)] of
    [ermrest_model.Model], which returns the ForeignKey identified by the
    pair [(schema_name, constraint_name)] and fails with a not-found error
    ([KeyError]) if no such constraint exists. *)
Definition lookup_fkey (fks : list ForeignKey.t) (constraint_name : json)
    : exc ForeignKey.t :=
  match constraint_name with
  | JList [JStr s; JStr n] =>
    match find (fun fk =>
                  bool_decide (schema_name_or_empty (ForeignKey.constraint_schema fk) = s)
                  && bool_decide (ForeignKey.constraint_name fk = n)) fks with
    | Some fk => Ok fk
    | None => Raise (Builtin KeyError)
    end
  | _ => Raise (Builtin KeyError)
  end.

Definition FK_out : ForeignKey.t := ForeignKey.mk (Some "s") "FK_out" 1 2.
Definition FK1 : ForeignKey.t := ForeignKey.mk (Some "s") "FK1" 2 1.
Definition FK2 : ForeignKey.t := ForeignKey.mk (Some "s") "FK2" 2 2.

Definition demo_model : Model.t := Model.mk (lookup_fkey [FK_out; FK1; FK2]).
Definition demo_schema : Schema.t := Schema.mk "s" demo_model.

Definition demo_T1 (annotations : dict) : ModelObj.t :=
  ModelObj.mk annotations None (Some demo_schema) (Some "T1")
    (Some [Column.mk "A"; Column.mk "B"])
    (Some [Key.mk (Some "schema1") "K1"])
    (Some [Some FK_out]).

Definition demo_T2 : ModelObj.t :=
  ModelObj.mk [] None (Some demo_schema) (Some "T2")
    (Some [Column.mk "X"])
    (Some [])
    (Some [Some FK1; Some FK2]).

(** The heap of the catalog, [T1] carrying the given annotations. *)
Definition demo_heap (annotations : dict) : heap := fun i =>
  match i with
  | 1 => demo_T1 annotations
  | _ => demo_T2
  end.

Definition export_tag : string := "tag:isrd.isi.edu,2016:export".
Definition source_definitions_tag : string := "tag:isrd.isi.edu,2019:source-definitions".
Definition display_tag : string := "tag:misd.isi.edu,2015:display".

(** An environment with three registered tags, schema resources for two of
    them, and an engine that accepts every instance. *)
Definition demo_env : Env := {|
  tag := [ ("export", export_tag);
           ("source_definitions", source_definitions_tag);
           ("display", display_tag) ];
  load_resource := fun path =>
    if bool_decide (path = "schemas/export.schema.json")
       || bool_decide (path = "schemas/source_definitions.schema.json")
    then Ok (JDict [("$id", JStr path)])
    else Raise (Builtin FileNotFoundError);
  Resolver := unit;
  RefResolver_from_schema := fun _ _ => Ok tt;
  validator_validate := fun _ _ _ _ => Ok tt
|}.

(** ** The rest of the container and of the path walk *)

(** [_AnnotationSchemas.__len__]: [len(self._schemas)] *)
Definition _schemas_len (st : cache) : nat := size st.

(** An element at which the path loop of valid-source-entry breaks: neither
    a string nor a dict with an inbound or outbound pair. *)
Definition halts_path (item : json) : bool :=
  match item with
  | JStr _ => false
  | JDict d => negb (is_fkey_step d)
  | _ => true
  end.

(** A two-element list [[a, b]]. *)
Inductive two_element_list : json -> Prop :=
| two_elements a b : two_element_list (JList [a; b]).

(** A dict in which ["inbound"] or ["outbound"] holds a two-element list. *)
Definition has_step_pair (d : dict) : Prop :=
  ∃ io a b, (io = "inbound"%string ∨ io = "outbound"%string) ∧
            dict_lookup d io = Some (JList [a; b]).

(** An element of a path that is neither a string nor a dict with an
    inbound or outbound pair. *)
Definition halting_element (x : json) : Prop :=
  (∀ s, x ≠ JStr s) ∧ (∀ d, x = JDict d → ¬ has_step_pair d).

(** An engine for worked examples only: it applies, in the order of the
    keyword table, each keyword the schema names at its top level, to the
    whole instance. *)
Definition keyword_engine (schema : json) (resolver : unit)
    (keywords : list (string * ValidatorFn)) (instance : json) : exc unit :=
  match schema with
  | JDict d =>
    for_each (fun kw : string * ValidatorFn =>
                match dict_lookup d kw.1 with
                | Some value => kw.2 value instance schema
                | None => Ok tt
                end) keywords
  | _ => Ok tt
  end.

(** [demo_env] with that engine and an export schema that enables
    valid-columns. *)
Definition demo_keyword_env : Env := {|
  tag := tag demo_env;
  load_resource := fun path =>
    if bool_decide (path = "schemas/export.schema.json")
    then Ok (JDict [("$id", JStr path); ("valid-columns", JBool true)])
    else load_resource demo_env path;
  Resolver := unit;
  RefResolver_from_schema := fun _ _ => Ok tt;
  validator_validate := keyword_engine
|}.

(** Two outcomes that differ at most in the exception raised. *)
Definition same_outcome {A} (r1 r2 : exc A) : Prop :=
  match r1, r2 with
  | Ok a, Ok b => a = b
  | Raise _, Raise _ => True
  | _, _ => False
  end.

(** The errors of a call that returned. *)
Definition returned_errors (r : exc (list ValidationError.t)) : list ValidationError.t :=
  match r with
  | Ok errors => errors
  | Raise _ => []
  end.

(** ** Upload processors ([deriva/transfer/upload/processors])

    The keyword arguments of a processor are a dict of arbitrary Python
    values, of which [BaseProcessor.__init__] only takes the truth value;
    [dict()] is the empty dict as such a value. *)
Module Processors.
Section Processors.
Variable Value : Type.
Variable truth : Value -> bool.
Variable empty_dict : Value.

Definition PROCESSOR_PARAMS_KEY : string := "processor_params".

(** [d.get(k)] *)
Fixpoint kw_lookup (d : list (string * Value)) (k : string) : option Value :=
  match d with
  | [] => None
  | (k', v) :: d' => if bool_decide (k' = k) then Some v else kw_lookup d' k
  end.

(** [d[k] = v]: an existing key keeps its place. *)
Fixpoint kw_setitem (d : list (string * Value)) (k : string) (v : Value)
    : list (string * Value) :=
  match d with
  | [] => [(k, v)]
  | (k', v') :: d' =>
    if bool_decide (k' = k) then (k', v) :: d' else (k', v') :: kw_setitem d' k v
  end.

(** The attributes [BaseProcessor.__init__] sets. *)
Record BaseProcessor := {
  kwargs : list (string * Value);
  parameters : Value
}.

(** [BaseProcessor.__init__(self, **kwargs)] *)
Definition BaseProcessor_init (kw : list (string * Value)) : BaseProcessor :=
  let given := default empty_dict (kw_lookup kw PROCESSOR_PARAMS_KEY) in
  {| kwargs := kw; parameters := if truth given then given else empty_dict |}.

(** [BaseProcessor.process] *)
Definition BaseProcessor_process : exc unit :=
  Raise (Builtin (OtherError "NotImplementedError")).

(** [LoggingProcessor.process(self)]: what it hands to [logger.debug] (the
    class name and [input_context]) when the logger is enabled for [DEBUG],
    and the dict it returns. *)
Definition LoggingProcessor_process (debug_enabled : bool) (class_name : string)
    (self : BaseProcessor)
    : option (string * list (string * Value)) * list (string * Value) :=
  let logged :=
    if debug_enabled then
      let input_context :=
        foldl (fun ctx kv => kw_setitem ctx kv.1 kv.2) [] (kwargs self) in
      Some (class_name, input_context)
    else None in
  (logged, []).

End Processors.
End Processors.

(** * Properties *)

(** ** Sets of names *)

Lemma elem_of_column_names cds s : s ∈ column_names cds ↔ names_column cds s.
Proof.
  unfold column_names, names_column.
  rewrite elem_of_list_to_set, list_elem_of_fmap. naive_solver.
Qed.

Lemma elem_of_constraint_names ks fks x y :
  (x, y) ∈ key_names ks ∪ fkey_names fks ↔ names_constraint ks fks x y.
Proof.
  unfold key_names, fkey_names, names_constraint.
  rewrite elem_of_union, !elem_of_list_to_set, !list_elem_of_fmap.
  split.
  - intros [(k & Hk & Hin) | (fk & Hfk & Hin)].
    + left. exists k. inversion Hk. done.
    + right. exists fk. apply list_elem_of_omap in Hin as (o & Ho & Hid).
      simpl in Hid. subst o. inversion Hfk. done.
  - intros [(k & Hin & <- & <-) | (fk & Hin & <- & <-)].
    + left. by exists k.
    + right. exists fk. split; [done |].
      apply list_elem_of_omap. by exists (Some fk).
Qed.

(** ** Loops *)

Lemma for_each_ok {A} (body : A -> exc unit) l :
  for_each body l = Ok tt ↔ Forall (fun x => body x = Ok tt) l.
Proof.
  induction l as [| x l IH]; simpl.
  - split; [constructor | done].
  - rewrite Forall_cons, <- IH.
    destruct (body x) as [[] |] eqn:Hx; simpl; naive_solver.
Qed.

Lemma for_each_first {A} (body : A -> exc unit) pre x post e :
  Forall (fun y => body y = Ok tt) pre →
  body x = Raise e →
  for_each body (pre ++ x :: post) = Raise e.
Proof.
  intros Hpre Hx. induction Hpre as [| y pre Hy _ IH]; simpl.
  - by rewrite Hx.
  - by rewrite Hy.
Qed.

Lemma for_each_raises {A} (body : A -> exc unit) l :
  (∃ e, for_each body l = Raise e) ↔ Exists (fun x => ∃ e, body x = Raise e) l.
Proof.
  induction l as [| x l IH]; simpl.
  - split; [intros [e He]; done | intros H; inversion H].
  - rewrite Exists_cons, <- IH.
    destruct (body x) as [[] |] eqn:Hx; simpl.
    + split; [by right | intros [[e He] | H]; done].
    + split; [intros _; left; eauto | eauto].
Qed.

(** ** valid-columns *)

Lemma check_column_item_raises cds ks fks value instance schema item :
  (∃ e, check_column_item (column_names cds) (key_names ks ∪ fkey_names fks)
          value instance schema item = Raise e)
  ↔ column_violation cds ks fks item.
Proof.
  split.
  - intros [e He]. destruct item as [| | | | s | l | d]; simpl in He; try done.
    + case_bool_decide as Hs; [| done].
      constructor. by rewrite <- elem_of_column_names.
    + destruct l as [| a [| b [| c l]]]; try done.
      constructor. intros x y -> ->. simpl in He.
      case_bool_decide as Hxy; [done |].
      by rewrite <- elem_of_constraint_names.
  - intros [s Hs | a b Hab]; simpl.
    + rewrite bool_decide_eq_true_2; [eauto |].
      by rewrite elem_of_column_names.
    + unfold pair_in_set.
      destruct (hashable a && hashable b) eqn:Hh; simpl; [| eauto].
      destruct a, b; simpl; eauto.
      rewrite bool_decide_eq_false_2; simpl; [eauto |].
      rewrite elem_of_constraint_names. by apply Hab.
Qed.

Lemma check_column_item_ok cds ks fks value instance schema item :
  check_column_item (column_names cds) (key_names ks ∪ fkey_names fks)
    value instance schema item = Ok tt
  ↔ ¬ column_violation cds ks fks item.
Proof.
  rewrite <- (check_column_item_raises cds ks fks value instance schema item).
  destruct (check_column_item _ _ _ _ _ _) as [[] | e].
  - split; [intros _ [e He]; discriminate | done].
  - split; [discriminate | intros H; destruct H; eauto].
Qed.

(** X21.  For a table [T] with [column_definitions], [keys] and
    [foreign_keys], the enabled valid-columns validator applied to a list
    raises an exception exactly when some element is a string that is no
    column name of [T] or a two-element list that is not the identity of a
    key or foreign key of [T].  The exception is that of the first such
    element: the validation error of a string or of a pair of hashable
    values, and [TypeError] for a pair that holds a list or a dict.  A list
    of elements of any other shape passes.  With columns [A], [B] and the
    key [(schema1, K1)], the instance [["A", ["schema1", "K1"], "C"]] gives
    the single error that references ["C"]. *)
Theorem valid_columns_reports (h : heap) (T : ident) cds ks fks (value schema : json) :
  ModelObj.column_definitions (h T) = Some cds →
  ModelObj.keys (h T) = Some ks →
  ModelObj.foreign_keys (h T) = Some fks →
  truthy value = true →
  let run items := _validate_columns_fn h T value (JList items) schema in
  (∀ items, (∃ e, run items = Raise e) ↔ Exists (column_violation cds ks fks) items) ∧
  (∀ pre item post,
     Forall (fun x => ¬ column_violation cds ks fks x) pre →
     column_violation cds ks fks item →
     let instance := JList (pre ++ item :: post) in
     match item with
     | JStr _ =>
       run (pre ++ item :: post) =
       Raise (keyword_error (Msg "'%s' not found in column definitions" [item])
                None value instance schema)
     | JList [a; b] =>
       run (pre ++ item :: post) =
       if hashable a && hashable b
       then Raise (keyword_error (Msg "'%s' not found in keys or foreign keys" [item])
                     None value instance schema)
       else Raise (Builtin TypeError)
     | _ => False
     end) ∧
  (∀ items,
     Forall (fun x => (∀ s, x ≠ JStr s) ∧ ¬ two_element_list x) items →
     run items = Ok tt) ∧
  ((∀ s, names_column cds s ↔ s = "A" ∨ s = "B") →
   Key.mk (Some "schema1") "K1" ∈ ks →
   let instance := [JStr "A"; JList [JStr "schema1"; JStr "K1"]; JStr "C"] in
   ∃ e, run instance = Raise (ValidationErr e) ∧
        references e (JStr "C") ∧
        ValidationError.message e = Msg "'%s' not found in column definitions" [JStr "C"]).
Proof.
  intros Hcds Hks Hfks Hval run.
  pose (body items := check_column_item (column_names cds) (key_names ks ∪ fkey_names fks)
                        value (JList items) schema).
  assert (Hrun : ∀ items, run items = for_each (body items) items).
  { intros items. unfold run, _validate_columns_fn.
    rewrite Hcds, Hks, Hfks, Hval. done. }
  assert (Hfirst : ∀ pre item post,
     Forall (fun x => ¬ column_violation cds ks fks x) pre →
     column_violation cds ks fks item →
     match item with
     | JStr _ =>
       run (pre ++ item :: post) =
       Raise (keyword_error (Msg "'%s' not found in column definitions" [item])
                None value (JList (pre ++ item :: post)) schema)
     | JList [a; b] =>
       run (pre ++ item :: post) =
       if hashable a && hashable b
       then Raise (keyword_error (Msg "'%s' not found in keys or foreign keys" [item])
                     None value (JList (pre ++ item :: post)) schema)
       else Raise (Builtin TypeError)
     | _ => False
     end).
  { intros pre item post Hpre Hviol.
    assert (Hpre' : Forall (fun y => body (pre ++ item :: post) y = Ok tt) pre).
    { eapply Forall_impl; [exact Hpre |]. intros y Hy. by apply check_column_item_ok. }
    destruct Hviol as [s Hs | a b Hab]; rewrite Hrun.
    - apply for_each_first; [done |]. unfold body. simpl.
      rewrite bool_decide_eq_true_2; [done |]. by rewrite elem_of_column_names.
    - destruct (hashable a && hashable b) eqn:Hh.
      + apply for_each_first; [done |]. unfold body, check_column_item, pair_in_set.
        rewrite Hh. destruct a, b; try done. simpl.
        rewrite bool_decide_eq_false_2; [done |].
        rewrite elem_of_constraint_names. by apply Hab.
      + apply for_each_first; [done |]. unfold body, check_column_item, pair_in_set.
        by rewrite Hh. }
  split; [| split; [| split]].
  - intros items. rewrite Hrun, for_each_raises. unfold body.
    split; intros H; (eapply Exists_impl; [exact H |]); intros x Hx;
      by apply (check_column_item_raises cds ks fks value (JList items) schema x).
  - exact Hfirst.
  - intros items Hshape. rewrite Hrun. apply for_each_ok.
    eapply Forall_impl; [exact Hshape |]. intros x [Hstr Hpair].
    apply check_column_item_ok. intros Hv.
    destruct Hv as [s _ | a b _]; [by apply (Hstr s) | apply Hpair; constructor].
  - intros Hcols Hkey instance.
    eexists. split; [| split].
    + apply (Hfirst [JStr "A"; JList [JStr "schema1"; JStr "K1"]] (JStr "C") []).
      * repeat constructor.
        -- intros Hv. inversion Hv as [s Hs |]; subst. apply Hs, Hcols. by left.
        -- intros Hv. inversion Hv as [| a b Hab]; subst.
           apply (Hab "schema1" "K1"); [done | done |].
           left. eexists. split; [exact Hkey |]. done.
      * constructor. rewrite Hcols. intros [? | ?]; done.
    + unfold references. simpl. set_solver.
    + done.
Qed.

Lemma valid_columns_reports_witness :
  truthy (JBool true) = true ∧
  ∀ items,
    (∃ e, _validate_columns_fn (demo_heap []) 1 (JBool true) (JList items) JNull = Raise e)
    ↔ Exists (column_violation [Column.mk "A"; Column.mk "B"]
                [Key.mk (Some "schema1") "K1"] [Some FK_out]) items.
Proof.
  split; [reflexivity |].
  exact (proj1 (valid_columns_reports (demo_heap []) 1 _ _ _ (JBool true) JNull
                  eq_refl eq_refl eq_refl eq_refl)).
Defined.

Example valid_columns_on_T1 :
  let instance := JList [JStr "A"; JList [JStr "schema1"; JStr "K1"]; JStr "C"] in
  _validate_columns_fn (demo_heap []) 1 (JBool true) instance JNull =
  Raise (keyword_error (Msg "'%s' not found in column definitions" [JStr "C"])
           None (JBool true) instance JNull).
Proof. vm_compute. reflexivity. Qed.

Example valid_columns_pair_of_lists_on_T1 :
  _validate_columns_fn (demo_heap []) 1 (JBool true)
    (JList [JList [JList []; JStr "K1"]]) JNull = Raise (Builtin TypeError).
Proof. vm_compute. reflexivity. Qed.

(** ** valid-foreign-keys *)

Lemma foreign_keys_loop_prefix check items :
  foreign_keys_loop check items = for_each check (checked_prefix items).
Proof.
  induction items as [| item rest IH]; simpl; [done |].
  destruct (is_pair item); simpl; [| done].
  by rewrite IH.
Qed.

Lemma checked_prefix_stop pre x post :
  Forall (fun i => is_pair i = true) pre →
  is_pair x = false →
  checked_prefix (pre ++ x :: post) = pre.
Proof.
  intros Hpre Hx. induction Hpre as [| i pre Hi _ IH]; simpl.
  - by rewrite Hx.
  - by rewrite Hi, IH.
Qed.

Lemma checked_prefix_pairs pre item post :
  Forall (fun i => is_pair i = true) pre →
  is_pair item = true →
  ∃ post', checked_prefix (pre ++ item :: post) = pre ++ item :: post'.
Proof.
  intros Hpre Hitem. induction Hpre as [| i pre Hi _ [post' IH]]; simpl.
  - rewrite Hitem. eauto.
  - rewrite Hi, IH. eauto.
Qed.

Lemma check_foreign_key_ok h model table value instance schema item :
  check_foreign_key h model table value instance schema item = Ok tt
  ↔ refers_to model table item.
Proof.
  unfold check_foreign_key, refers_to.
  destruct (Model.fkey model item) as [fk | e].
  - case_bool_decide as Hpk.
    + split.
      * destruct (ModelObj.name (h table)); done.
      * intros (fk' & [= <-] & Hfk'). done.
    + split; [| done]. intros _. exists fk. split; [done |].
      destruct (decide (ForeignKey.pk_table fk = table)); done.
  - split.
    + destruct e as [| []]; done.
    + intros (fk & Hfk & _). done.
Qed.

Lemma is_pair_two_element_list item : is_pair item = true ↔ two_element_list item.
Proof.
  split.
  - destruct item as [| | | | | [| a [| b [| c l]]] |];
      first [discriminate | intros _; constructor].
  - by intros [a b].
Qed.

Lemma is_pair_not_two_element_list item : is_pair item = false ↔ ¬ two_element_list item.
Proof.
  rewrite <- is_pair_two_element_list. by destruct (is_pair item).
Qed.

(** C2.  For a table [T] with a [schema], the enabled valid-foreign-keys
    validator applied to a list looks only at the elements before the
    first one that is not a two-element list [[a, b]]: it passes exactly
    when each of these names a foreign key of the model whose [pk_table]
    is [T], whatever that element and the ones after it are, and the first
    pair that does not gives the error.  If [T] is the [pk_table] of
    [(s, FK1)] and not of [(s, FK2)], the instance
    [[["s", "FK1"], ["s", "FK2"]]] gives one error, which references the
    pair of [FK2]. *)
Theorem valid_foreign_keys_checks (h : heap) (T : ident) sch (value schema : json) :
  ModelObj.schema (h T) = Some sch →
  truthy value = true →
  let model := Schema.model sch in
  let run items := _validate_foreign_keys_fn h T value (JList items) schema in
  (∀ items,
     Forall two_element_list items →
     (run items = Ok tt ↔ Forall (refers_to model T) items)) ∧
  (∀ pre x post,
     Forall two_element_list pre →
     ¬ two_element_list x →
     (run (pre ++ x :: post) = Ok tt ↔ Forall (refers_to model T) pre) ∧
     ((∃ e, run (pre ++ x :: post) = Raise e) ↔ ¬ Forall (refers_to model T) pre)) ∧
  (∀ pre a b post,
     Forall (fun i => two_element_list i ∧ refers_to model T i) pre →
     let item := JList [a; b] in
     let instance := JList (pre ++ item :: post) in
     (Model.fkey model item = Raise (Builtin KeyError) →
      run (pre ++ item :: post) =
      Raise (keyword_error (Msg "%s not found in foreign keys of model" [item])
               (Some KeyError) value instance schema)) ∧
     (∀ fk n,
        Model.fkey model item = Ok fk →
        ForeignKey.pk_table fk ≠ T →
        ModelObj.name (h T) = Some n →
        run (pre ++ item :: post) =
        Raise (plain_error (Msg "%s does not refer to '%s'" [item; JStr n])))) ∧
  (∀ s n,
     let p1 := JList [JStr s; JStr "FK1"] in
     let p2 := JList [JStr s; JStr "FK2"] in
     refers_to model T p1 →
     (Model.fkey model p2 = Raise (Builtin KeyError) ∨
      ∃ fk2, Model.fkey model p2 = Ok fk2 ∧ ForeignKey.pk_table fk2 ≠ T) →
     ModelObj.name (h T) = Some n →
     ∃ e, run [p1; p2] = Raise (ValidationErr e) ∧ references e p2).
Proof.
  intros Hsch Hval model run.
  pose (check items := check_foreign_key h model T value (JList items) schema).
  assert (Hrun : ∀ items, run items = for_each (check items) (checked_prefix items)).
  { intros items. unfold run, _validate_foreign_keys_fn.
    rewrite Hsch, Hval. simpl. apply foreign_keys_loop_prefix. }
  assert (Hok : ∀ items, run items = Ok tt ↔ Forall (refers_to model T) (checked_prefix items)).
  { intros items. rewrite Hrun, for_each_ok.
    apply Forall_proper; [| done]. intros item. apply check_foreign_key_ok. }
  assert (Hall : ∀ items, Forall two_element_list items → checked_prefix items = items).
  { induction 1 as [| item items Hitem _ IH]; simpl; [done |].
    apply is_pair_two_element_list in Hitem. by rewrite Hitem, IH. }
  assert (Hpairs : ∀ l, Forall two_element_list l → Forall (fun i => is_pair i = true) l).
  { intros l Hl. eapply Forall_impl; [exact Hl |].
    intros i. apply is_pair_two_element_list. }
  assert (Hfirst : ∀ pre item post e,
     Forall (fun i => two_element_list i ∧ refers_to model T i) pre →
     two_element_list item →
     check (pre ++ item :: post) item = Raise e →
     run (pre ++ item :: post) = Raise e).
  { intros pre item post e Hpre Hitem He.
    apply Forall_and in Hpre as [Hpre Hrefs].
    destruct (checked_prefix_pairs pre item post (Hpairs pre Hpre)
                (proj2 (is_pair_two_element_list item) Hitem)) as [post' Hpost'].
    rewrite Hrun, Hpost'. apply for_each_first; [| done].
    eapply Forall_impl; [exact Hrefs |]. intros i Hi. by apply check_foreign_key_ok. }
  split; [| split; [| split]].
  - intros items Hitems. by rewrite Hok, Hall.
  - intros pre x post Hpre Hx.
    assert (Hstop : checked_prefix (pre ++ x :: post) = pre).
    { apply checked_prefix_stop; [by apply (Hpairs pre) |].
      by apply is_pair_not_two_element_list. }
    assert (Hiff : run (pre ++ x :: post) = Ok tt ↔ Forall (refers_to model T) pre)
      by (by rewrite Hok, Hstop).
    split; [exact Hiff |].
    rewrite <- Hiff. destruct (run (pre ++ x :: post)) as [[] | e].
    + split; [intros [e He]; discriminate | intros Hn; by destruct Hn].
    + split; [intros _; discriminate | eauto].
  - intros pre a b post Hpre item instance. split.
    + intros Hfk. apply Hfirst; [done | constructor |].
      unfold check, check_foreign_key. by rewrite Hfk.
    + intros fk n Hfk Hpk Hn. apply Hfirst; [done | constructor |].
      unfold check, check_foreign_key. rewrite Hfk, bool_decide_eq_true_2 by done.
      by rewrite Hn.
  - intros s n p1 p2 Hp1 Hp2 Hn.
    assert (Hpre : Forall (fun i => two_element_list i ∧ refers_to model T i) [p1]).
    { repeat constructor. done. }
    destruct Hp2 as [Hmissing | (fk2 & Hfk2 & Hpk)].
    + eexists. split.
      * apply (Hfirst [p1] p2 []); [done | constructor |].
        unfold check, check_foreign_key. rewrite Hmissing. done.
      * unfold references. simpl. set_solver.
    + eexists. split.
      * apply (Hfirst [p1] p2 []); [done | constructor |].
        unfold check, check_foreign_key.
        rewrite Hfk2, bool_decide_eq_true_2 by done. rewrite Hn. done.
      * unfold references. simpl. set_solver.
Qed.

Lemma valid_foreign_keys_checks_witness :
  truthy (JBool true) = true ∧
  ∀ pre x post,
    Forall two_element_list pre →
    ¬ two_element_list x →
    _validate_foreign_keys_fn (demo_heap []) 1 (JBool true) (JList (pre ++ x :: post)) JNull
      = Ok tt
    ↔ Forall (refers_to demo_model 1) pre.
Proof.
  split; [reflexivity |].
  intros pre x post Hpre Hx.
  exact (proj1 (proj1 (proj2 (valid_foreign_keys_checks (demo_heap []) 1 _ (JBool true) JNull
                               eq_refl eq_refl)) pre x post Hpre Hx)).
Defined.

Example valid_foreign_keys_on_T1 :
  let instance := JList [JList [JStr "s"; JStr "FK1"]; JList [JStr "s"; JStr "FK2"]] in
  _validate_foreign_keys_fn (demo_heap []) 1 (JBool true) instance JNull =
  Raise (plain_error (Msg "%s does not refer to '%s'"
                        [JList [JStr "s"; JStr "FK2"]; JStr "T1"])).
Proof. vm_compute. reflexivity. Qed.

Example valid_foreign_keys_stops_at_triple_on_T1 :
  _validate_foreign_keys_fn (demo_heap []) 1 (JBool true)
    (JList [JList [JStr "s"; JStr "FK1"]; JList [JStr "s"; JStr "FK2"; JStr "x"];
            JList [JStr "s"; JStr "FK2"]]) JNull =
  Ok tt.
Proof. vm_compute. reflexivity. Qed.

Example valid_foreign_keys_stops_on_T1 :
  _validate_foreign_keys_fn (demo_heap []) 1 (JBool true)
    (JList [JList [JStr "s"; JStr "FK1"]; JStr "x"; JList [JStr "s"; JStr "FK2"]]) JNull =
  Ok tt.
Proof. vm_compute. reflexivity. Qed.

(** ** valid-source-entry *)

Lemma follow_outbound h model value instance schema a b cur :
  follow_directions h model value instance schema
    [("outbound", JList [a; b])] cur directions =
  match Model.fkey model (JList [a; b]) with
  | Ok fk =>
    if bool_decide (ForeignKey.table fk ≠ cur) then
      qn ← qualified_name h cur;
      Raise (keyword_error
               (Msg "%s foreign key %s not associated with %s"
                  [JStr "outbound"; JList [a; b]; qn])
               None value instance schema)
    else Ok (ForeignKey.pk_table fk)
  | Raise (Builtin KeyError) =>
    Raise (keyword_error (Msg "%s not found in model fkeys" [JList [a; b]])
             (Some KeyError) value instance schema)
  | Raise e => Raise e
  end.
Proof.
  unfold directions, follow_directions, follow_direction.
  change (dict_lookup [("outbound", JList [a; b])] "outbound") with (Some (JList [a; b])).
  change (dict_lookup [("outbound", JList [a; b])] "inbound") with (@None json).
  unfold mbind, exc_bind. cbv beta iota.
  destruct (Model.fkey model (JList [a; b])) as [fk | [| []]]; try reflexivity.
  case_bool_decide; [| reflexivity].
  destruct (qualified_name h cur); reflexivity.
Qed.

Lemma follow_inbound h model value instance schema a b cur :
  follow_directions h model value instance schema
    [("inbound", JList [a; b])] cur directions =
  match Model.fkey model (JList [a; b]) with
  | Ok fk =>
    if bool_decide (ForeignKey.pk_table fk ≠ cur) then
      qn ← qualified_name h cur;
      Raise (keyword_error
               (Msg "%s foreign key %s not associated with %s"
                  [JStr "inbound"; JList [a; b]; qn])
               None value instance schema)
    else Ok (ForeignKey.table fk)
  | Raise (Builtin KeyError) =>
    Raise (keyword_error (Msg "%s not found in model fkeys" [JList [a; b]])
             (Some KeyError) value instance schema)
  | Raise e => Raise e
  end.
Proof.
  unfold directions, follow_directions, follow_direction.
  change (dict_lookup [("inbound", JList [a; b])] "outbound") with (@None json).
  change (dict_lookup [("inbound", JList [a; b])] "inbound") with (Some (JList [a; b])).
  unfold mbind, exc_bind. cbv beta iota.
  destruct (Model.fkey model (JList [a; b])) as [fk | [| []]]; try reflexivity.
  case_bool_decide; [| reflexivity].
  destruct (qualified_name h cur); reflexivity.
Qed.

Lemma follow_outbound_ok h model value instance schema a b cur t :
  follow_directions h model value instance schema
    [("outbound", JList [a; b])] cur directions = Ok t
  ↔ ∃ fk, Model.fkey model (JList [a; b]) = Ok fk ∧ ForeignKey.table fk = cur
          ∧ ForeignKey.pk_table fk = t.
Proof.
  rewrite follow_outbound.
  destruct (Model.fkey model (JList [a; b])) as [fk | [| []]];
    try (split; [done | intros (? & ? & _); done]).
  case_bool_decide as Hne.
  - split; [destruct (qualified_name h cur); done |].
    intros (fk' & [= <-] & ? & _). done.
  - split.
    + intros [= <-]. exists fk. split; [done |]. split; [| done].
      destruct (decide (ForeignKey.table fk = cur)); done.
    + intros (fk' & [= <-] & _ & <-). done.
Qed.

Lemma follow_inbound_ok h model value instance schema a b cur t :
  follow_directions h model value instance schema
    [("inbound", JList [a; b])] cur directions = Ok t
  ↔ ∃ fk, Model.fkey model (JList [a; b]) = Ok fk ∧ ForeignKey.pk_table fk = cur
          ∧ ForeignKey.table fk = t.
Proof.
  rewrite follow_inbound.
  destruct (Model.fkey model (JList [a; b])) as [fk | [| []]];
    try (split; [done | intros (? & ? & _); done]).
  case_bool_decide as Hne.
  - split; [destruct (qualified_name h cur); done |].
    intros (fk' & [= <-] & ? & _). done.
  - split.
    + intros [= <-]. exists fk. split; [done |]. split; [| done].
      destruct (decide (ForeignKey.pk_table fk = cur)); done.
    + intros (fk' & [= <-] & _ & <-). done.
Qed.

Lemma source_path_loop_valid h model value instance schema items :
  Forall path_element items →
  ∀ cur,
    source_path_loop h model value instance schema cur items = Ok tt
    ↔ valid_path h model cur items.
Proof.
  induction 1 as [| item rest Hitem _ IH]; intros cur.
  - split; [constructor | done].
  - destruct Hitem as [s | a b | a b].
    + simpl. split.
      * destruct (ModelObj.column_definitions (h cur)) as [cds |] eqn:Hcds; [| done].
        simpl. case_bool_decide as Hs.
        { destruct (qualified_name h cur); done. }
        intros Hrest. eapply path_column; [done | | by apply IH].
        apply elem_of_column_names.
        destruct (decide (s ∈ column_names cds)); done.
      * inversion 1 as [| ? cds ? ? Hcds Hs Hrest | |]; subst.
        rewrite Hcds. simpl. rewrite bool_decide_eq_false_2.
        { by apply IH. }
        intros Hn. apply Hn. by apply elem_of_column_names.
    + change (source_path_loop h model value instance schema cur
                (JDict [("outbound", JList [a; b])] :: rest))
        with (t ← follow_directions h model value instance schema
                    [("outbound", JList [a; b])] cur directions;
              source_path_loop h model value instance schema t rest).
      split.
      * destruct (follow_directions _ _ _ _ _ _ _ _) as [t |] eqn:Hf; [| done].
        simpl. intros Hrest.
        apply follow_outbound_ok in Hf as (fk & Hfk & Ht & <-).
        eapply path_outbound; [done | done | by apply IH].
      * inversion 1 as [| | ? ? ? fk ? Hfk Ht Hrest |]; subst.
        assert (Hf : follow_directions h model value instance schema
                       [("outbound", JList [a; b])] (ForeignKey.table fk) directions
                     = Ok (ForeignKey.pk_table fk)).
        { apply follow_outbound_ok. eauto. }
        rewrite Hf. simpl. by apply IH.
    + change (source_path_loop h model value instance schema cur
                (JDict [("inbound", JList [a; b])] :: rest))
        with (t ← follow_directions h model value instance schema
                    [("inbound", JList [a; b])] cur directions;
              source_path_loop h model value instance schema t rest).
      split.
      * destruct (follow_directions _ _ _ _ _ _ _ _) as [t |] eqn:Hf; [| done].
        simpl. intros Hrest.
        apply follow_inbound_ok in Hf as (fk & Hfk & Ht & <-).
        eapply path_inbound; [done | done | by apply IH].
      * inversion 1 as [| | | ? ? ? fk ? Hfk Ht Hrest]; subst.
        assert (Hf : follow_directions h model value instance schema
                       [("inbound", JList [a; b])] (ForeignKey.pk_table fk) directions
                     = Ok (ForeignKey.table fk)).
        { apply follow_inbound_ok. eauto. }
        rewrite Hf. simpl. by apply IH.
Qed.

(** C1.  For a table [T] with [column_definitions] and a [schema], the
    enabled valid-source-entry validator applied to a list walks it as a
    foreign-key path from [T]: on a list of column names and single-key
    steps it passes exactly when the list is a valid path, in which a
    string is a column name of the current table, an outbound step names a
    foreign key of the model whose [table] is the current table and moves
    to its [pk_table], and an inbound step names one whose [pk_table] is
    the current table and moves to its [table].  With [T] the child of
    [FK_out] and a column [X] on the parent, [[{"outbound": ["s",
    "FK_out"]}, "X"]] passes, and [[{"inbound": ["s", "FK_out"]}, "X"]]
    gives the error that [FK_out] is not associated with [T], [T] not being
    its parent. *)
Theorem valid_source_entry_walks (h : heap) (T : ident) cds sch (value schema : json) :
  ModelObj.column_definitions (h T) = Some cds →
  ModelObj.schema (h T) = Some sch →
  truthy value = true →
  let model := Schema.model sch in
  let run items := _validate_source_entry_fn h T value (JList items) schema in
  (∀ items, Forall path_element items → run items = Ok tt ↔ valid_path h model T items) ∧
  (∀ s fk cds2,
     let name := JList [JStr s; JStr "FK_out"] in
     Model.fkey model name = Ok fk →
     ForeignKey.table fk = T →
     ModelObj.column_definitions (h (ForeignKey.pk_table fk)) = Some cds2 →
     names_column cds2 "X" →
     run [JDict [("outbound", name)]; JStr "X"] = Ok tt) ∧
  (∀ s fk n,
     let name := JList [JStr s; JStr "FK_out"] in
     let instance := [JDict [("inbound", name)]; JStr "X"] in
     Model.fkey model name = Ok fk →
     ForeignKey.table fk = T →
     ForeignKey.pk_table fk ≠ T →
     ModelObj.name (h T) = Some n →
     run instance =
     Raise (keyword_error
              (Msg "%s foreign key %s not associated with %s"
                 [JStr "inbound"; name; JList [JStr (Schema.name sch); JStr n]])
              None value (JList instance) schema)).
Proof.
  intros Hcds Hsch Hval model run.
  assert (Hrun : ∀ items, run items =
            source_path_loop h model value (JList items) schema T items).
  { intros items. unfold run, _validate_source_entry_fn.
    rewrite Hcds, Hsch, Hval. done. }
  split; [| split].
  - intros items Hitems. rewrite Hrun. by apply source_path_loop_valid.
  - intros s fk cds2 name Hfk Htable Hcds2 HX.
    rewrite Hrun. apply source_path_loop_valid.
    { repeat constructor. }
    eapply path_outbound; [done | done |].
    eapply path_column; [done | done | constructor].
  - intros s fk n name instance Hfk Htable Hpk Hn.
    subst name instance. rewrite Hrun.
    set (instance := JList [JDict [("inbound", JList [JStr s; JStr "FK_out"])]; JStr "X"]).
    change (source_path_loop h model value instance schema T
              [JDict [("inbound", JList [JStr s; JStr "FK_out"])]; JStr "X"])
      with (t ← follow_directions h model value instance schema
                  [("inbound", JList [JStr s; JStr "FK_out"])] T directions;
            source_path_loop h model value instance schema t [JStr "X"]).
    rewrite follow_inbound, Hfk.
    rewrite bool_decide_eq_true_2 by done.
    unfold qualified_name. rewrite Hsch, Hn. done.
Qed.

Lemma valid_source_entry_walks_witness :
  truthy (JBool true) = true ∧
  ∀ items,
    Forall path_element items →
    _validate_source_entry_fn (demo_heap []) 1 (JBool true) (JList items) JNull = Ok tt
    ↔ valid_path (demo_heap []) demo_model 1 items.
Proof.
  split; [reflexivity |].
  exact (proj1 (valid_source_entry_walks (demo_heap []) 1 _ _ (JBool true) JNull
                  eq_refl eq_refl eq_refl)).
Defined.

Example valid_source_entry_outbound_on_T1 :
  _validate_source_entry_fn (demo_heap []) 1 (JBool true)
    (JList [JDict [("outbound", JList [JStr "s"; JStr "FK_out"])]; JStr "X"]) JNull = Ok tt.
Proof. vm_compute. reflexivity. Qed.

Example valid_source_entry_inbound_on_T1 :
  let name := JList [JStr "s"; JStr "FK_out"] in
  let instance := JList [JDict [("inbound", name)]; JStr "X"] in
  _validate_source_entry_fn (demo_heap []) 1 (JBool true) instance JNull =
  Raise (keyword_error
           (Msg "%s foreign key %s not associated with %s"
              [JStr "inbound"; name; JList [JStr "s"; JStr "T1"]])
           None (JBool true) instance JNull).
Proof. vm_compute. reflexivity. Qed.

(** ** The schema container *)

Section Container.
Context (env : Env).

Lemma abbrev_foldl (l : list (string * string)) (m : gmap string string) key a :
  foldl (fun m kv => <[kv.2 := kv.1]> m) m l !! key = Some a →
  m !! key = Some a ∨ (a, key) ∈ l.
Proof.
  revert m. induction l as [| [a' k'] l IH]; intros m; simpl; [by left |].
  intros H. apply IH in H as [H | H].
  - destruct (decide (k' = key)) as [-> | Hne].
    + rewrite lookup_insert_eq in H. injection H as ->. right. left.
    + rewrite lookup_insert_ne in H by done. by left.
  - right. by right.
Qed.

Lemma abbrev_foldl_registered (l : list (string * string)) (m : gmap string string) key :
  (is_Some (m !! key) ∨ ∃ a, (a, key) ∈ l) →
  is_Some (foldl (fun m kv => <[kv.2 := kv.1]> m) m l !! key).
Proof.
  revert m. induction l as [| [a' k'] l IH]; intros m; simpl.
  - intros [H | [a H]]; [done | by apply elem_of_nil in H].
  - intros [H | [a H]]; apply IH.
    + left. destruct (decide (k' = key)) as [-> | Hne].
      * rewrite lookup_insert_eq. done.
      * by rewrite lookup_insert_ne.
    + apply elem_of_cons in H as [[= <- <-] | H].
      * left. rewrite lookup_insert_eq. done.
      * right. eauto.
Qed.

Lemma abbrev_registered key : is_Some (_abbrev env !! key) ↔ registered env key.
Proof.
  unfold _abbrev, registered. split.
  - intros [a Ha]. apply abbrev_foldl in Ha as [Ha | Ha]; [done | eauto].
  - intros H. apply abbrev_foldl_registered. by right.
Qed.

Lemma getitem_hit key v (st : cache) :
  st !! key = Some v → _schemas_getitem env key st = (Ok v, st).
Proof. intros H. unfold _schemas_getitem. by rewrite H. Qed.

Lemma getitem_unregistered key (st : cache) :
  cache_ok env st → ¬ registered env key →
  _schemas_getitem env key st = (Raise (Builtin KeyError), st).
Proof.
  intros Hok Hkey. unfold _schemas_getitem.
  destruct (st !! key) as [v |] eqn:Hst.
  - destruct (Hok key v Hst) as (a & Ha & _).
    destruct Hkey. apply abbrev_registered. eauto.
  - destruct (_abbrev env !! key) as [a |] eqn:Ha; [| done].
    destruct Hkey. apply abbrev_registered. eauto.
Qed.

Lemma getitem_missing_resource key a e (st : cache) :
  cache_ok env st →
  _abbrev env !! key = Some a →
  load_resource env (schema_path a) = Raise e →
  _schemas_getitem env key st = (Raise e, st).
Proof.
  intros Hok Ha Hload. unfold _schemas_getitem.
  destruct (st !! key) as [v |] eqn:Hst.
  - destruct (Hok key v Hst) as (a' & Ha' & Hv). congruence.
  - by rewrite Ha, Hload.
Qed.

Lemma cache_ok_empty : cache_ok env ∅.
Proof. intros key v H. by rewrite lookup_empty in H. Qed.

Lemma getitem_cache_ok key (st : cache) :
  cache_ok env st → cache_ok env (_schemas_getitem env key st).2.
Proof.
  intros Hok. unfold _schemas_getitem.
  destruct (st !! key) as [v |] eqn:Hst; [done |].
  destruct (_abbrev env !! key) as [a |] eqn:Ha; [| done].
  destruct (load_resource env (schema_path a)) as [v | e] eqn:Hload; [| done].
  simpl. intros key' v' H.
  destruct (decide (key = key')) as [<- | Hne].
  - rewrite lookup_insert_eq in H. injection H as <-. eauto.
  - rewrite lookup_insert_ne in H by done. eauto.
Qed.

Lemma getitem_result key (st : cache) :
  (_schemas_getitem env key st).1 =
  match st !! key with
  | Some v => Ok v
  | None =>
    match _abbrev env !! key with
    | Some a => load_resource env (schema_path a)
    | None => Raise (Builtin KeyError)
    end
  end.
Proof.
  unfold _schemas_getitem.
  destruct (st !! key); [done |].
  destruct (_abbrev env !! key) as [a |]; [| done].
  by destruct (load_resource env (schema_path a)).
Qed.

Lemma same_schemas_refl (st : cache) : same_schemas env st st.
Proof. done. Qed.

Lemma same_schemas_sym (st st' : cache) :
  same_schemas env st st' → same_schemas env st' st.
Proof. intros H key. by rewrite H. Qed.

Lemma same_schemas_trans (st1 st2 st3 : cache) :
  same_schemas env st1 st2 → same_schemas env st2 st3 → same_schemas env st1 st3.
Proof. intros H1 H2 key. by rewrite H1, H2. Qed.

(** A lookup leaves every later lookup as it was: it only stores what a
    lookup would load. *)
Lemma getitem_same_schemas key (st : cache) :
  same_schemas env st (_schemas_getitem env key st).2.
Proof.
  unfold same_schemas.
  destruct (_schemas_getitem env key st) as [r st'] eqn:Hget. simpl.
  unfold _schemas_getitem in Hget.
  destruct (st !! key) as [v |] eqn:Hst; [by injection Hget as <- <- |].
  destruct (_abbrev env !! key) as [a |] eqn:Ha; [| by injection Hget as <- <-].
  destruct (load_resource env (schema_path a)) as [v | e] eqn:Hload;
    [| by injection Hget as <- <-].
  injection Hget as <- <-. intros key'. rewrite !getitem_result.
  destruct (decide (key = key')) as [<- | Hne].
  - by rewrite lookup_insert_eq, Hst, Ha, Hload.
  - by rewrite lookup_insert_ne.
Qed.

(** A document, once stored, stays as it is. *)
Lemma getitem_keeps key key' v (st : cache) :
  st !! key' = Some v → (_schemas_getitem env key st).2 !! key' = Some v.
Proof.
  intros H. unfold _schemas_getitem.
  destruct (st !! key) as [v0 |] eqn:Hst; [done |].
  destruct (_abbrev env !! key) as [a |]; [| done].
  destruct (load_resource env (schema_path a)) as [v1 | e]; [| done].
  simpl. rewrite lookup_insert_ne; [done |]. intros ->. congruence.
Qed.

End Container.

(** ** [_validate] and [validate] *)

Section Orchestrator.
Context (env : Env) (store : list (json * json)) (h : heap) (model_obj : ident).

Lemma _validate_absent tag_name (st : cache) :
  dict_has (ModelObj.annotations (h model_obj)) tag_name = false →
  _validate env store h model_obj tag_name st = (Ok [], st).
Proof.
  intros H. unfold _validate, _validate_body. by rewrite H.
Qed.

Lemma _validate_present tag_name (st : cache) :
  dict_has (ModelObj.annotations (h model_obj)) tag_name = true →
  _validate env store h model_obj tag_name st =
  (except_clauses tag_name
     (schema ← (_schemas_getitem env tag_name st).1;
      validate_annotation env store h model_obj tag_name schema),
   (_schemas_getitem env tag_name st).2).
Proof.
  intros H. unfold _validate, _validate_body. rewrite H.
  unfold mbind at 1, M_bind, lift.
  destruct (_schemas_getitem env tag_name st) as [[schema | e] st']; simpl; [| done].
  by destruct (validate_annotation _ _ _ _ _ _).
Qed.

Lemma validate_single tag_name (st : cache) :
  tag_name ≠ EmptyString →
  validate env store h model_obj (Some tag_name) st =
  _validate env store h model_obj tag_name st.
Proof. intros H. unfold validate. by rewrite bool_decide_eq_false_2. Qed.

Lemma _validate_state tag_name (st : cache) :
  (_validate env store h model_obj tag_name st).2 = st ∨
  (_validate env store h model_obj tag_name st).2 = (_schemas_getitem env tag_name st).2.
Proof.
  destruct (dict_has (ModelObj.annotations (h model_obj)) tag_name) eqn:H.
  - right. by rewrite _validate_present.
  - left. by rewrite _validate_absent.
Qed.

Lemma _validate_cache_ok tag_name (st : cache) :
  cache_ok env st → cache_ok env (_validate env store h model_obj tag_name st).2.
Proof.
  intros Hok. destruct (_validate_state tag_name st) as [-> | ->]; [done |].
  by apply getitem_cache_ok.
Qed.

Lemma _validate_same_schemas tag_name (st : cache) :
  same_schemas env st (_validate env store h model_obj tag_name st).2.
Proof.
  destruct (_validate_state tag_name st) as [-> | ->]; [done |].
  apply getitem_same_schemas.
Qed.

Lemma _validate_respects tag_name (st st' : cache) :
  same_schemas env st st' →
  (_validate env store h model_obj tag_name st).1 =
  (_validate env store h model_obj tag_name st').1.
Proof.
  intros Hsame.
  destruct (dict_has (ModelObj.annotations (h model_obj)) tag_name) eqn:H.
  - rewrite !_validate_present by done. simpl. by rewrite (Hsame tag_name).
  - by rewrite !_validate_absent.
Qed.

Lemma validate_each_respects tag_names errors (st st' : cache) :
  same_schemas env st st' →
  (validate_each env store h model_obj tag_names errors st).1 =
  (validate_each env store h model_obj tag_names errors st').1 ∧
  same_schemas env st (validate_each env store h model_obj tag_names errors st).2.
Proof.
  revert errors st st'.
  induction tag_names as [| tag_name rest IH]; intros errors st st' Hsame; [done |].
  simpl. unfold mbind, M_bind.
  pose proof (_validate_respects tag_name st st' Hsame) as Hres.
  pose proof (_validate_same_schemas tag_name st) as Hst.
  pose proof (_validate_same_schemas tag_name st') as Hst'.
  destruct (_validate env store h model_obj tag_name st) as [r st1].
  destruct (_validate env store h model_obj tag_name st') as [r' st1'].
  simpl in *. subst r'.
  destruct r as [es | e]; [| done].
  assert (Hsame1 : same_schemas env st1 st1').
  { apply (same_schemas_trans env st1 st st1'); [by apply same_schemas_sym |].
    by apply (same_schemas_trans env st st' st1'). }
  destruct (IH (errors ++ es) st1 st1' Hsame1) as [Hr Hs].
  split; [done |]. by apply (same_schemas_trans env st st1).
Qed.

Lemma validate_each_cache_ok tag_names errors (st : cache) :
  cache_ok env st → cache_ok env (validate_each env store h model_obj tag_names errors st).2.
Proof.
  revert errors st.
  induction tag_names as [| tag_name rest IH]; intros errors st Hok; [done |].
  simpl. unfold mbind, M_bind.
  pose proof (_validate_cache_ok tag_name st Hok) as Hok1.
  destruct (_validate env store h model_obj tag_name st) as [[es | e] st1]; [| done].
  by apply IH.
Qed.

Lemma _validate_keeps tag_name key v (st : cache) :
  st !! key = Some v → (_validate env store h model_obj tag_name st).2 !! key = Some v.
Proof.
  intros H. destruct (_validate_state tag_name st) as [-> | ->]; [done |].
  by apply getitem_keeps.
Qed.

Lemma validate_each_keeps tag_names errors key v (st : cache) :
  st !! key = Some v →
  (validate_each env store h model_obj tag_names errors st).2 !! key = Some v.
Proof.
  revert errors st.
  induction tag_names as [| tag_name rest IH]; intros errors st H; [done |].
  simpl. unfold mbind, M_bind.
  pose proof (_validate_keeps tag_name key v st H) as H1.
  destruct (_validate env store h model_obj tag_name st) as [[es | e] st1]; [| done].
  by apply IH.
Qed.

Lemma validate_keeps tag_name key v (st : cache) :
  st !! key = Some v → (validate env store h model_obj tag_name st).2 !! key = Some v.
Proof.
  intros H. unfold validate.
  destruct tag_name as [t |]; [case_bool_decide |];
    auto using _validate_keeps, validate_each_keeps.
Qed.

(** The container stays consistent with the resources across calls. *)
Lemma validate_cache_ok tag_name (st : cache) :
  cache_ok env st → cache_ok env (validate env store h model_obj tag_name st).2.
Proof.
  intros Hok. unfold validate.
  destruct tag_name as [t |]; [case_bool_decide |];
    auto using _validate_cache_ok, validate_each_cache_ok.
Qed.

Lemma validate_respects tag_name (st st' : cache) :
  same_schemas env st st' →
  (validate env store h model_obj tag_name st).1 =
  (validate env store h model_obj tag_name st').1 ∧
  same_schemas env st (validate env store h model_obj tag_name st).2.
Proof.
  intros Hsame. unfold validate.
  destruct tag_name as [t |]; [case_bool_decide |];
    auto using validate_each_respects, _validate_respects, _validate_same_schemas.
Qed.

End Orchestrator.

Lemma later_container_same_schemas env store (st st' : cache) :
  later_container env store st st' → same_schemas env st st'.
Proof.
  induction 1 as [| st' h model_obj tag_name _ IH]; [done |].
  apply (same_schemas_trans env st st'); [done |].
  by apply (validate_respects env store h model_obj tag_name st' st').
Qed.

(** The container the module starts with, filled while [_schema_store] is
    built, is consistent with the resources. *)
Lemma schema_store_init_cache_ok (env : Env) :
  cache_ok env (_schema_store_init env ∅).2.
Proof.
  assert (Hentry : ∀ t (st : cache), cache_ok env st → cache_ok env (store_entry env t st).2).
  { intros t st Hok. unfold store_entry, mbind, M_bind, lift.
    pose proof (getitem_cache_ok env t st Hok) as H1.
    destruct (_schemas_getitem env t st) as [[s |] st1]; [| done].
    destruct (subscript s "$id") as [k |]; [| done].
    destruct (hashable k); [| done].
    pose proof (getitem_cache_ok env t st1 H1) as H2.
    by destruct (_schemas_getitem env t st1) as [[v |] st2]. }
  unfold _schema_store_init, mbind, M_bind, lift.
  pose proof (cache_ok_empty env) as H0.
  destruct (tag_attr env "export") as [t1 |]; [| done].
  destruct (tag_attr env "source_definitions") as [t2 |]; [| done].
  pose proof (Hentry t1 ∅ H0) as H1.
  destruct (store_entry env t1 ∅) as [[e1 |] st1]; [| done].
  pose proof (Hentry t2 st1 H1) as H2.
  by destruct (store_entry env t2 st1) as [[e2 |] st2].
Qed.

Example schema_store_of_demo_env :
  let doc path := JDict [("$id", JStr path)] in
  let r := _schema_store_init demo_env ∅ in
  r.1 = Ok [ (JStr "schemas/export.schema.json", doc "schemas/export.schema.json");
             (JStr "schemas/source_definitions.schema.json",
              doc "schemas/source_definitions.schema.json") ] ∧
  r.2 !! export_tag = Some (doc "schemas/export.schema.json") ∧
  r.2 !! source_definitions_tag = Some (doc "schemas/source_definitions.schema.json") ∧
  r.2 !! display_tag = None.
Proof. vm_compute. done. Qed.

(** ** The claims about [validate] *)

(** C3, where the code departs from it.  A two-element list that holds a
    list or a dict is the identity of no key or foreign key, yet the
    validator reports no error for it: the set lookup
    [tuple(item) not in _constraint_names] raises [TypeError].  That is not
    a [ValidationError], and when the engine's run on an annotation ends
    as the validator does, it leaves [validate]. *)
Theorem valid_columns_unhashable_pair_escapes (h : heap) (T : ident) cds ks fks
    (value schema : json) (pre post : list json) (a b : json) :
  ModelObj.column_definitions (h T) = Some cds →
  ModelObj.keys (h T) = Some ks →
  ModelObj.foreign_keys (h T) = Some fks →
  truthy value = true →
  Forall (fun x => ¬ column_violation cds ks fks x) pre →
  hashable a && hashable b = false →
  let instance := JList (pre ++ JList [a; b] :: post) in
  column_violation cds ks fks (JList [a; b]) ∧
  _validate_columns_fn h T value instance schema = Raise (Builtin TypeError) ∧
  ∀ (env : Env) store t st doc (resolver : Resolver env) valid_source_key,
    t ≠ EmptyString →
    dict_lookup (ModelObj.annotations (h T)) t = Some instance →
    (_schemas_getitem env t st).1 = Ok doc →
    RefResolver_from_schema env doc store = Ok resolver →
    _validate_source_key_fn env h T = Ok valid_source_key →
    validator_validate env doc resolver
      [ ("valid-columns", _validate_columns_fn h T);
        ("valid-source-key", valid_source_key);
        ("valid-source-entry", _validate_source_entry_fn h T);
        ("valid-foreign-keys", _validate_foreign_keys_fn h T);
        ("valid-sort-key", _validate_sort_key_fn h T) ] instance
      = _validate_columns_fn h T value instance schema →
    (validate env store h T (Some t) st).1 = Raise (Builtin TypeError).
Proof.
  intros Hcds Hks Hfks Hval Hpre Hhash instance.
  assert (Hviol : column_violation cds ks fks (JList [a; b])).
  { constructor. intros x y -> ->. done. }
  assert (Hraise : _validate_columns_fn h T value instance schema = Raise (Builtin TypeError)).
  { unfold _validate_columns_fn. rewrite Hcds, Hks, Hfks, Hval. simpl.
    apply for_each_first.
    - eapply Forall_impl; [exact Hpre |]. intros y Hy. by apply check_column_item_ok.
    - unfold check_column_item, pair_in_set. by rewrite Hhash. }
  split; [done |]. split; [done |].
  intros env store t st doc resolver valid_source_key Ht Hinst Hdoc Hres Hkey Hengine.
  rewrite validate_single by done.
  assert (Hin : dict_has (ModelObj.annotations (h T)) t = true).
  { clear -Hinst. induction (ModelObj.annotations (h T)) as [| [k v] d IH]; simpl in *;
      [done |]. case_bool_decide; [done |]. by apply IH. }
  rewrite _validate_present by done.
  simpl. rewrite Hdoc. simpl.
  unfold validate_annotation. rewrite Hres. simpl. rewrite Hkey. simpl.
  rewrite Hinst. simpl. by rewrite Hengine, Hraise.
Qed.

Lemma valid_columns_unhashable_pair_escapes_witness :
  let instance := JList [JList [JList []; JStr "K1"]] in
  let h := demo_heap [(export_tag, instance)] in
  _validate_columns_fn h 1 (JBool true) instance JNull = Raise (Builtin TypeError) ∧
  (validate demo_keyword_env [] h 1 (Some export_tag) ∅).1 = Raise (Builtin TypeError).
Proof.
  intros instance h.
  destruct (valid_columns_unhashable_pair_escapes h 1
              [Column.mk "A"; Column.mk "B"] [Key.mk (Some "schema1") "K1"] [Some FK_out]
              (JBool true)
              (JDict [("$id", JStr "schemas/export.schema.json");
                      ("valid-columns", JBool true)])
              [] [] (JList []) (JStr "K1")
              eq_refl eq_refl eq_refl eq_refl (Forall_nil_2 _) eq_refl)
    as (_ & Hraise & Hescape).
  split.
  - vm_compute. reflexivity.
  - destruct (_validate_source_key_fn demo_keyword_env h 1) as [f |] eqn:Hf;
      [| discriminate Hf].
    refine (Hescape demo_keyword_env [] export_tag ∅ _ tt f _ _ _ _ Hf _);
      [discriminate | reflexivity | vm_compute; reflexivity | reflexivity
      | vm_compute; reflexivity].
Defined.

Example validate_raises_on_pair_of_lists :
  let instance := JList [JList [JList []; JStr "K1"]] in
  (validate demo_keyword_env [] (demo_heap [(export_tag, instance)]) 1
     (Some export_tag) ∅).1 = Raise (Builtin TypeError) ∧
  (validate demo_keyword_env [] (demo_heap [(export_tag, JList [JStr "C"])]) 1
     (Some export_tag) ∅).1 =
  Ok [ValidationError.mk (Msg "'%s' not found in column definitions" [JStr "C"]) None
        (Some (JBool true)) (Some (JList [JStr "C"]))
        (Some (JDict [("$id", JStr "schemas/export.schema.json");
                      ("valid-columns", JBool true)]))].
Proof. vm_compute. done. Qed.

Lemma render_unknown_tag_message t :
  render (unknown_tag_message t) =
  Some ("Unknown annotation tag name " +:+ String (Ascii.ascii_of_nat 34) t
          +:+ String (Ascii.ascii_of_nat 34) EmptyString).
Proof.
  reflexivity.
Qed.

(** C4, as the code has it.  A tag with no registered abbreviation that is
    not empty and is a key of the object's annotations gives exactly one
    error, whose message is the text [Unknown annotation tag name] followed
    by the quoted tag name, and nothing is raised.  (The presence check
    comes first: an absent tag gives no error, registered or not.) *)
Theorem unknown_tag_reported (env : Env) (store : list (json * json)) (h : heap)
    (model_obj : ident) (t : string) (st : cache) :
  cache_ok env st →
  ¬ registered env t →
  t ≠ EmptyString →
  dict_has (ModelObj.annotations (h model_obj)) t = true →
  ∃ text,
    validate env store h model_obj (Some t) st = (Ok [unknown_tag_error t], st) ∧
    render (ValidationError.message (unknown_tag_error t)) = Some text ∧
    occurs_in t text.
Proof.
  intros Hok Hreg Ht Hin. eexists. split; [| split].
  - rewrite validate_single, _validate_present by done.
    by rewrite getitem_unregistered.
  - apply render_unknown_tag_message.
  - exists ("Unknown annotation tag name " +:+ String (Ascii.ascii_of_nat 34) EmptyString),
           (String (Ascii.ascii_of_nat 34) EmptyString).
    reflexivity.
Qed.

Lemma unknown_tag_reported_witness :
  ∃ text,
    validate demo_env [] (demo_heap [("tag:example.org,2024:nope", JNull)]) 1
      (Some "tag:example.org,2024:nope") ∅ =
    (Ok [unknown_tag_error "tag:example.org,2024:nope"], ∅) ∧
    render (ValidationError.message (unknown_tag_error "tag:example.org,2024:nope"))
      = Some text ∧
    occurs_in "tag:example.org,2024:nope" text.
Proof.
  apply unknown_tag_reported.
  - apply cache_ok_empty.
  - intros [a Ha]. simpl in Ha. rewrite !elem_of_cons in Ha.
    destruct Ha as [Ha | [Ha | [Ha | Ha]]]; try discriminate Ha.
    by apply elem_of_nil in Ha.
  - discriminate.
  - reflexivity.
Defined.

(** The claim C4 fails on an unregistered tag that the object does not
    carry: the result is the empty list, not one error. *)
Lemma unknown_absent_tag_gives_no_error :
  let t := "tag:example.org,2024:nope" in
  ¬ registered demo_env t ∧
  validate demo_env [] (demo_heap []) 1 (Some t) ∅ = (Ok [], ∅) ∧
  ¬ ∃ e st, validate demo_env [] (demo_heap []) 1 (Some t) ∅ = (Ok [e], st).
Proof.
  split; [| split].
  - intros [a Ha]. simpl in Ha. rewrite !elem_of_cons in Ha.
    destruct Ha as [Ha | [Ha | [Ha | Ha]]]; try discriminate Ha.
    by apply elem_of_nil in Ha.
  - reflexivity.
  - intros (e & st & H). discriminate H.
Qed.

(** C5, where the code departs from it.  When the object's
    source-definitions annotation is not a dict, building the
    valid-source-key validator calls [.get] on it and raises
    [AttributeError]; no [except] clause of [_validate] handles that class,
    so validating any annotation of the object whose schema is found lets
    the exception leave [validate], with a tag and without one. *)
Theorem validate_lets_attribute_error_escape (env : Env) (store : list (json * json))
    (h : heap) (model_obj : ident) (t sd : string) (v schema : json)
    (resolver : Resolver env) (st : cache) :
  tag_attr env "source_definitions" = Ok sd →
  dict_lookup (ModelObj.annotations (h model_obj)) sd = Some v →
  (∀ d, v ≠ JDict d) →
  t ≠ EmptyString →
  dict_has (ModelObj.annotations (h model_obj)) t = true →
  (_schemas_getitem env t st).1 = Ok schema →
  RefResolver_from_schema env schema store = Ok resolver →
  (validate env store h model_obj (Some t) st).1 = Raise (Builtin AttributeError) ∧
  ∀ errors, (validate env store h model_obj None st).1 ≠ Ok errors.
Proof.
  intros Hsd Hv Hdict Ht Hin Hschema Hres.
  assert (Hone : ∀ st', (_schemas_getitem env t st').1 = Ok schema →
            (_validate env store h model_obj t st').1 = Raise (Builtin AttributeError)).
  { intros st' Hst'. rewrite _validate_present by done. simpl. rewrite Hst'. simpl.
    unfold validate_annotation. rewrite Hres. simpl.
    unfold _validate_source_key_fn. rewrite Hsd. simpl.
    unfold dict_get. rewrite Hv.
    destruct v; try done. by destruct (Hdict d). }
  split.
  - rewrite validate_single by done. by apply Hone.
  - unfold validate.
    assert (Hgen : ∀ names errors st',
              same_schemas env st st' → t ∈ names →
              ∀ l, (validate_each env store h model_obj names errors st').1 = Ok l →
                   False).
    { induction names as [| n names IH]; intros errors st' Hsame Hel l.
      - by apply elem_of_nil in Hel.
      - simpl. unfold mbind, M_bind.
        pose proof (_validate_same_schemas env store h model_obj n st') as Hnext.
        destruct (decide (n = t)) as [-> | Hne].
        + rewrite (surjective_pairing (_validate env store h model_obj t st')).
          rewrite Hone; [done |]. by rewrite <- (Hsame t).
        + destruct (_validate env store h model_obj n st') as [[es | e] st1]; [| done].
          apply elem_of_cons in Hel as [-> | Hel]; [done |].
          apply (IH (errors ++ es) st1); [| done].
          by apply (same_schemas_trans env st st' st1). }
    intros errors Hret.
    apply (Hgen (fst <$> ModelObj.annotations (h model_obj)) [] st
             (same_schemas_refl env st)) with (l := errors); [| done].
    clear -Hin. unfold dict_has in Hin. apply existsb_exists in Hin as ([k x] & Hk & Hb).
    apply bool_decide_eq_true in Hb. simpl in Hb. subst k.
    apply list_elem_of_fmap. exists (t, x). split; [done |]. by apply list_elem_of_In.
Qed.

Lemma validate_lets_attribute_error_escape_witness :
  let h := demo_heap [(source_definitions_tag, JList [])] in
  (validate demo_env [] h 1 (Some source_definitions_tag) ∅).1
    = Raise (Builtin AttributeError) ∧
  ∀ errors, (validate demo_env [] h 1 None ∅).1 ≠ Ok errors.
Proof.
  apply (validate_lets_attribute_error_escape demo_env [] _ 1 source_definitions_tag
           source_definitions_tag (JList [])
           (JDict [("$id", JStr "schemas/source_definitions.schema.json")]) tt ∅).
  - reflexivity.
  - reflexivity.
  - discriminate.
  - discriminate.
  - reflexivity.
  - vm_compute. reflexivity.
  - reflexivity.
Defined.

Example validate_raises_on_list_source_definitions :
  (validate demo_env [] (demo_heap [(source_definitions_tag, JList [])]) 1
     (Some source_definitions_tag) ∅).1 = Raise (Builtin AttributeError).
Proof. vm_compute. reflexivity. Qed.

(** C6.  For a registered tag that is not a key of the object's
    annotations [validate] returns the empty list and leaves the schema
    container as it was; the outcome is the same for every object without
    that key, so nothing else of the object is read.  (A registry holds tag
    names, none of them empty: the empty string is the absent [tag_name].) *)
Theorem absent_registered_tag_is_noop (env : Env) (store : list (json * json)) (h : heap)
    (model_obj : ident) (t : string) (st : cache) :
  ¬ registered env EmptyString →
  registered env t →
  dict_has (ModelObj.annotations (h model_obj)) t = false →
  validate env store h model_obj (Some t) st = (Ok [], st) ∧
  ∀ h' model_obj',
    dict_has (ModelObj.annotations (h' model_obj')) t = false →
    validate env store h' model_obj' (Some t) st =
    validate env store h model_obj (Some t) st.
Proof.
  intros Hempty Hreg Habsent.
  assert (Ht : t ≠ EmptyString) by (intros ->; done).
  split.
  - by rewrite validate_single, _validate_absent.
  - intros h' model_obj' Habsent'.
    by rewrite !validate_single, !_validate_absent.
Qed.

Lemma demo_registry_has_no_empty_tag : ¬ registered demo_env EmptyString.
Proof.
  intros [a Ha]. simpl in Ha. rewrite !elem_of_cons in Ha.
  destruct Ha as [Ha | [Ha | [Ha | Ha]]]; try discriminate Ha.
  by apply elem_of_nil in Ha.
Qed.

Lemma absent_registered_tag_is_noop_witness :
  registered demo_env export_tag ∧
  validate demo_env [] (demo_heap [(display_tag, JNull)]) 1 (Some export_tag) ∅ = (Ok [], ∅).
Proof.
  assert (Hreg : registered demo_env export_tag).
  { exists "export"%string. simpl. left. }
  split; [exact Hreg |].
  apply (absent_registered_tag_is_noop demo_env [] _ 1 export_tag ∅).
  - exact demo_registry_has_no_empty_tag.
  - exact Hreg.
  - reflexivity.
Defined.

(** C7.  For a registered tag present in the object's annotations whose
    schema resource does not exist, the load raising [FileNotFoundError],
    [validate] returns the empty list.  The container is one the module
    can be in: it holds only documents loaded from the resources. *)
Theorem missing_schema_resource_gives_no_error (env : Env) (store : list (json * json))
    (h : heap) (model_obj : ident) (t a : string) (st : cache) :
  ¬ registered env EmptyString →
  cache_ok env st →
  _abbrev env !! t = Some a →
  dict_has (ModelObj.annotations (h model_obj)) t = true →
  load_resource env (schema_path a) = Raise (Builtin FileNotFoundError) →
  validate env store h model_obj (Some t) st = (Ok [], st).
Proof.
  intros Hempty Hok Ha Hin Hload.
  assert (Ht : t ≠ EmptyString).
  { intros ->. apply Hempty, abbrev_registered. eauto. }
  rewrite validate_single, _validate_present by done.
  by rewrite (getitem_missing_resource env t a _ st Hok Ha Hload).
Qed.

Lemma missing_schema_resource_gives_no_error_witness :
  _abbrev demo_env !! display_tag = Some "display"%string ∧
  load_resource demo_env (schema_path "display") = Raise (Builtin FileNotFoundError) ∧
  validate demo_env [] (demo_heap [(display_tag, JNull)]) 1 (Some display_tag) ∅ = (Ok [], ∅).
Proof.
  split; [vm_compute; reflexivity |]. split; [reflexivity |].
  apply (missing_schema_resource_gives_no_error demo_env [] _ 1 display_tag "display" ∅).
  - exact demo_registry_has_no_empty_tag.
  - apply cache_ok_empty.
  - vm_compute. reflexivity.
  - reflexivity.
  - reflexivity.
Defined.

(** C8, as the code has it.  For a tag that is not empty, [validate]
    returns a list of at most one error whenever it returns; what it
    raises instead is an exception of none of the three handled classes.
    (An empty tag is taken as no tag, and every annotation is validated.) *)
Theorem single_tag_at_most_one_error (env : Env) (store : list (json * json)) (h : heap)
    (model_obj : ident) (t : string) (st : cache) :
  t ≠ EmptyString →
  match (validate env store h model_obj (Some t) st).1 with
  | Ok errors => length errors ≤ 1
  | Raise e => handled e = false
  end.
Proof.
  intros Ht. rewrite validate_single by done.
  unfold _validate.
  destruct (_validate_body env store h model_obj t st) as [[[] | [e | []]] st'];
    simpl; auto.
Qed.

Lemma single_tag_at_most_one_error_witness :
  match (validate demo_env [] (demo_heap [(export_tag, JNull); (display_tag, JNull)]) 1
           (Some export_tag) ∅).1 with
  | Ok errors => length errors ≤ 1
  | Raise e => handled e = false
  end.
Proof.
  apply single_tag_at_most_one_error. discriminate.
Defined.

(** The claim C8 fails on the empty string, a tag argument that is not
    [None]: two annotations with unregistered tags give two errors. *)
Lemma empty_tag_gives_two_errors :
  (validate demo_env [] (demo_heap [("x", JNull); ("y", JNull)]) 1 (Some EmptyString) ∅).1
    = Ok [unknown_tag_error "x"; unknown_tag_error "y"] ∧
  ¬ (length [unknown_tag_error "x"; unknown_tag_error "y"] ≤ 1).
Proof.
  split; [vm_compute; reflexivity |]. simpl. lia.
Qed.

(** C9.  Calling [validate] again on the unchanged object gives the result
    of the first call, in the container the first call left and in every
    container later calls lead to: what a call stores in the container is
    what a later call would load, and a stored document stays as it is. *)
Theorem validate_twice_same_result (env : Env) (store : list (json * json)) (h : heap)
    (model_obj : ident) (tag_name : option string) (st : cache) :
  let first := validate env store h model_obj tag_name st in
  (validate env store h model_obj tag_name first.2).1 = first.1 ∧
  (∀ st', later_container env store first.2 st' →
          (validate env store h model_obj tag_name st').1 = first.1) ∧
  (∀ key v, st !! key = Some v → first.2 !! key = Some v).
Proof.
  intros first.
  assert (Hlater : ∀ st', later_container env store first.2 st' →
            (validate env store h model_obj tag_name st').1 = first.1).
  { intros st' Hst'. symmetry.
    apply (validate_respects env store h model_obj tag_name st st').
    apply (same_schemas_trans env st first.2).
    - by apply (validate_respects env store h model_obj tag_name st st).
    - by apply (later_container_same_schemas env store). }
  split; [| split].
  - apply Hlater. constructor.
  - exact Hlater.
  - intros key v Hkey. by apply validate_keeps.
Qed.

Example validate_twice_on_T1 :
  let h := demo_heap [(export_tag, JNull); ("x", JNull)] in
  let first := validate demo_env [] h 1 None ∅ in
  first.1 = Ok [unknown_tag_error "x"] ∧
  first.2 !! export_tag = Some (JDict [("$id", JStr "schemas/export.schema.json")]) ∧
  (validate demo_env [] h 1 None first.2).1 = Ok [unknown_tag_error "x"].
Proof. vm_compute. done. Qed.

(** C10, as the code has it.  For a tag that is not empty and is not a key
    of the object's annotations, registered or not, [validate] returns the
    empty list and leaves the container as it was, and so does [_validate]
    for every tag: the presence check precedes the registry lookup.  (An
    empty tag is taken as no tag, and every annotation is validated.) *)
Theorem absent_tag_is_noop (env : Env) (store : list (json * json)) (h : heap)
    (model_obj : ident) (t : string) (st : cache) :
  dict_has (ModelObj.annotations (h model_obj)) t = false →
  _validate env store h model_obj t st = (Ok [], st) ∧
  (t ≠ EmptyString → validate env store h model_obj (Some t) st = (Ok [], st)).
Proof.
  intros Habsent. split.
  - by apply _validate_absent.
  - intros Ht. by rewrite validate_single, _validate_absent.
Qed.

Lemma absent_tag_is_noop_witness :
  let t := "tag:example.org,2024:nope" in
  _validate demo_env [] (demo_heap [("x", JNull)]) 1 t ∅ = (Ok [], ∅) ∧
  validate demo_env [] (demo_heap [("x", JNull)]) 1 (Some t) ∅ = (Ok [], ∅).
Proof.
  destruct (absent_tag_is_noop demo_env [] (demo_heap [("x", JNull)]) 1
              "tag:example.org,2024:nope" ∅ eq_refl) as [H1 H2].
  split; [exact H1 |]. apply H2. discriminate.
Defined.

(** The claim C10 fails on the empty string, which is no key of the
    annotations: the one annotation, of an unregistered tag, is validated
    and gives an error. *)
Lemma empty_absent_tag_gives_error :
  dict_has [("x", JNull)] EmptyString = false ∧
  (validate demo_env [] (demo_heap [("x", JNull)]) 1 (Some EmptyString) ∅).1
    = Ok [unknown_tag_error "x"] ∧
  (validate demo_env [] (demo_heap [("x", JNull)]) 1 (Some EmptyString) ∅).1 ≠ Ok [].
Proof.
  split; [reflexivity |].
  assert (H : (validate demo_env [] (demo_heap [("x", JNull)]) 1 (Some EmptyString) ∅).1
              = Ok [unknown_tag_error "x"]) by (vm_compute; reflexivity).
  split; [exact H |]. rewrite H. discriminate.
Qed.

(** * Further properties *)

(** ** valid-sort-key *)

(** X1.  The enabled valid-sort-key validator checks against the columns
    of the object's [table] when it has one, of the object itself
    otherwise.  A string passes exactly when it is empty or a column name;
    a dict passes exactly when its ["column"] is absent, falsy or a column
    name, and a non-empty list or dict there makes the set lookup raise
    [TypeError]; any other instance passes. *)
Theorem sort_key_checks_column (h : heap) (model_obj : ident) cds (value schema : json) :
  ModelObj.column_definitions (h (default model_obj (ModelObj.table (h model_obj)))) = Some cds →
  truthy value = true →
  let run instance := _validate_sort_key_fn h model_obj value instance schema in
  (∀ s, run (JStr s) = Ok tt ↔ s = EmptyString ∨ names_column cds s) ∧
  (∀ s, s ≠ EmptyString → ¬ names_column cds s →
        run (JStr s) =
        Raise (keyword_error (Msg "'%s' not found in column definitions" [JStr s])
                 None value (JStr s) schema)) ∧
  (∀ d, run (JDict d) = Ok tt ↔
        match dict_lookup d "column" with
        | None => True
        | Some c => truthy c = false ∨ ∃ s, c = JStr s ∧ names_column cds s
        end) ∧
  (∀ d c, dict_lookup d "column" = Some c → truthy c = true → hashable c = false →
          run (JDict d) = Raise (Builtin TypeError)) ∧
  (∀ instance, (∀ s, instance ≠ JStr s) → (∀ d, instance ≠ JDict d) → run instance = Ok tt).
Proof.
  intros Hcds Hval run.
  assert (Hrun : ∀ instance, run instance =
    let col_name := match instance with
                    | JStr _ => instance
                    | JDict d => dict_get d "column" JNull
                    | _ => JNull
                    end in
    if truthy col_name then
      found ← in_str_set col_name (column_names cds);
      if negb found then
        Raise (keyword_error (Msg "'%s' not found in column definitions" [instance])
                 None value instance schema)
      else Ok tt
    else Ok tt).
  { intros instance. unfold run, _validate_sort_key_fn.
    destruct (ModelObj.table (h model_obj)); simpl in Hcds; rewrite Hcds, Hval; done. }
  assert (Hstr : ∀ s instance value' schema',
    (if truthy (JStr s) then
       found ← in_str_set (JStr s) (column_names cds);
       if negb found then
         Raise (keyword_error (Msg "'%s' not found in column definitions" [instance])
                  None value' instance schema')
       else Ok tt
     else Ok tt) = Ok tt ↔ s = EmptyString ∨ names_column cds s).
  { intros s instance value' schema'. simpl.
    case_bool_decide as He; simpl.
    - split; [by left | done].
    - case_bool_decide as Hs; simpl.
      + split; [intros _; right; by apply elem_of_column_names | done].
      + split; [done |]. intros [? | Hn]; [done |].
        destruct Hs. by apply elem_of_column_names. }
  split; [| split; [| split; [| split]]].
  - intros s. rewrite Hrun. apply Hstr.
  - intros s Hs Hn. rewrite Hrun. simpl.
    rewrite bool_decide_eq_false_2 by done. simpl.
    rewrite bool_decide_eq_false_2; [done |]. by rewrite elem_of_column_names.
  - intros d. rewrite Hrun. unfold dict_get. cbv zeta.
    destruct (dict_lookup d "column") as [c |]; [| done].
    destruct c as [| b | z | f | s | l | d'].
    5: { rewrite (Hstr s (JDict d) value schema). simpl. split.
         - intros [-> | Hn]; [by left | right; eauto].
         - intros [He | (s' & [= <-] & Hn)]; [| by right].
           left. case_bool_decide; done. }
    all: match goal with |- context [truthy ?c] => destruct (truthy c) eqn:Hc end;
      simpl;
      [split; [done | intros [? | (s & ? & _)]; done] | split; [by left | done]].
  - intros d c Hd Hc Hh. rewrite Hrun. unfold dict_get. simpl. rewrite Hd, Hc.
    destruct c; done.
  - intros instance Hs Hd. rewrite Hrun.
    destruct instance; try done; [by destruct (Hs s) | by destruct (Hd d)].
Qed.

Lemma sort_key_checks_column_witness :
  truthy (JBool true) = true ∧
  ∀ s, _validate_sort_key_fn (demo_heap []) 1 (JBool true) (JStr s) JNull = Ok tt
       ↔ s = EmptyString ∨ names_column [Column.mk "A"; Column.mk "B"] s.
Proof.
  split; [reflexivity |].
  exact (proj1 (sort_key_checks_column (demo_heap []) 1 _ (JBool true) JNull
                  eq_refl eq_refl)).
Defined.

(** ** Disabled keywords and missing capabilities *)

(** X2.  A falsy keyword value ([false], [null], [0], an empty string, list
    or dict) switches every semantic validator off: whatever the object and
    the instance, none of the five raises. *)
Theorem disabled_keyword_passes (env : Env) (h : heap) (model_obj : ident)
    (value instance schema : json) :
  truthy value = false →
  _validate_columns_fn h model_obj value instance schema = Ok tt ∧
  _validate_foreign_keys_fn h model_obj value instance schema = Ok tt ∧
  _validate_source_entry_fn h model_obj value instance schema = Ok tt ∧
  _validate_sort_key_fn h model_obj value instance schema = Ok tt ∧
  ∀ f, _validate_source_key_fn env h model_obj = Ok f → f value instance schema = Ok tt.
Proof.
  intros Hval. repeat split.
  - unfold _validate_columns_fn.
    destruct (ModelObj.column_definitions (h model_obj)),
      (ModelObj.keys (h model_obj)), (ModelObj.foreign_keys (h model_obj));
      try done; by rewrite Hval.
  - unfold _validate_foreign_keys_fn.
    destruct (ModelObj.schema (h model_obj)); [by rewrite Hval | done].
  - unfold _validate_source_entry_fn.
    destruct (ModelObj.column_definitions (h model_obj)), (ModelObj.schema (h model_obj));
      try done; by rewrite Hval.
  - unfold _validate_sort_key_fn.
    match goal with |- context [ModelObj.column_definitions ?o] =>
      destruct (ModelObj.column_definitions o) end; [by rewrite Hval | done].
  - intros f. unfold _validate_source_key_fn.
    destruct (tag_attr env "source_definitions") as [sd |]; [| done]. simpl.
    destruct (method_get _ _ _) as [sourcekeys |]; [| done]. simpl.
    intros [= <-]. by rewrite Hval.
Qed.

Lemma disabled_keyword_passes_witness :
  _validate_columns_fn (demo_heap []) 1 (JBool false) (JList [JStr "C"]) JNull = Ok tt ∧
  _validate_foreign_keys_fn (demo_heap []) 1 (JBool false) (JList [JStr "C"]) JNull = Ok tt ∧
  _validate_source_entry_fn (demo_heap []) 1 (JBool false) (JList [JStr "C"]) JNull = Ok tt ∧
  _validate_sort_key_fn (demo_heap []) 1 (JBool false) (JList [JStr "C"]) JNull = Ok tt ∧
  ∀ f, _validate_source_key_fn demo_env (demo_heap []) 1 = Ok f →
       f (JBool false) (JList [JStr "C"]) JNull = Ok tt.
Proof.
  apply disabled_keyword_passes. reflexivity.
Defined.

(** X3.  A validator built for an object that lacks what it reads is a
    no-op: valid-columns without [column_definitions], [keys] or
    [foreign_keys], valid-foreign-keys without [schema], valid-source-entry
    without [column_definitions] or [schema], valid-sort-key when neither
    the object's [table] nor, without one, the object itself has
    [column_definitions].  Whatever the keyword value and the instance,
    they do not raise. *)
Theorem validators_without_capability_pass (h : heap) (model_obj : ident)
    (value instance schema : json) :
  (ModelObj.column_definitions (h model_obj) = None ∨
   ModelObj.keys (h model_obj) = None ∨
   ModelObj.foreign_keys (h model_obj) = None →
   _validate_columns_fn h model_obj value instance schema = Ok tt) ∧
  (ModelObj.schema (h model_obj) = None →
   _validate_foreign_keys_fn h model_obj value instance schema = Ok tt) ∧
  (ModelObj.column_definitions (h model_obj) = None ∨ ModelObj.schema (h model_obj) = None →
   _validate_source_entry_fn h model_obj value instance schema = Ok tt) ∧
  (ModelObj.column_definitions
     (h (default model_obj (ModelObj.table (h model_obj)))) = None →
   _validate_sort_key_fn h model_obj value instance schema = Ok tt).
Proof.
  repeat split.
  - unfold _validate_columns_fn.
    intros [H | [H | H]]; rewrite H;
      destruct (ModelObj.column_definitions (h model_obj)); try done;
      destruct (ModelObj.keys (h model_obj)); done.
  - unfold _validate_foreign_keys_fn. by intros ->.
  - unfold _validate_source_entry_fn.
    intros [H | H]; rewrite H; [done |].
    by destruct (ModelObj.column_definitions (h model_obj)).
  - unfold _validate_sort_key_fn.
    destruct (ModelObj.table (h model_obj)); simpl; by intros ->.
Qed.

(** ** valid-source-entry, beyond single-key paths *)

(** X4.  For a table with [column_definitions] and a [schema], the enabled
    valid-source-entry validator passes a plain string exactly when it is
    a column name of the table (the empty string is no exception) and
    raises the column error otherwise; an instance that is neither a
    string nor a list passes. *)
Theorem source_entry_checks_plain_column (h : heap) (T : ident) cds sch
    (value schema : json) :
  ModelObj.column_definitions (h T) = Some cds →
  ModelObj.schema (h T) = Some sch →
  truthy value = true →
  let run instance := _validate_source_entry_fn h T value instance schema in
  (∀ s, run (JStr s) = Ok tt ↔ names_column cds s) ∧
  (∀ s, ¬ names_column cds s →
        run (JStr s) =
        Raise (keyword_error (Msg "'%s' not found in column definitions" [JStr s])
                 None value (JStr s) schema)) ∧
  (∀ instance, (∀ s, instance ≠ JStr s) → (∀ l, instance ≠ JList l) → run instance = Ok tt).
Proof.
  intros Hcds Hsch Hval run.
  assert (Hrun : ∀ s, run (JStr s) =
            if bool_decide (s ∉ column_names cds) then
              Raise (keyword_error (Msg "'%s' not found in column definitions" [JStr s])
                       None value (JStr s) schema)
            else Ok tt).
  { intros s. unfold run, _validate_source_entry_fn. by rewrite Hcds, Hsch, Hval. }
  split; [| split].
  - intros s. rewrite Hrun, <- elem_of_column_names.
    case_bool_decide as Hs; split; done.
  - intros s Hs. rewrite Hrun, bool_decide_eq_true_2; [done |].
    by rewrite elem_of_column_names.
  - intros instance Hs Hl. unfold run, _validate_source_entry_fn.
    rewrite Hcds, Hsch, Hval. simpl.
    destruct instance; try done; [by destruct (Hs s) | by destruct (Hl l)].
Qed.

Lemma source_entry_checks_plain_column_witness :
  truthy (JBool true) = true ∧
  ∀ s, _validate_source_entry_fn (demo_heap []) 1 (JBool true) (JStr s) JNull = Ok tt
       ↔ names_column [Column.mk "A"; Column.mk "B"] s.
Proof.
  split; [reflexivity |].
  exact (proj1 (source_entry_checks_plain_column (demo_heap []) 1 _ _ (JBool true) JNull
                  eq_refl eq_refl eq_refl)).
Defined.

Lemma validators_without_capability_pass_witness :
  let bare : heap := fun _ => ModelObj.mk [] None None None None None None in
  _validate_columns_fn bare 0 (JBool true) (JList [JStr "C"]) JNull = Ok tt ∧
  _validate_foreign_keys_fn bare 0 (JBool true) (JList [JList [JStr "s"; JStr "FK"]]) JNull
    = Ok tt.
Proof.
  intros bare.
  destruct (validators_without_capability_pass bare 0 (JBool true) (JList [JStr "C"]) JNull)
    as (Hc & _).
  destruct (validators_without_capability_pass bare 0 (JBool true)
              (JList [JList [JStr "s"; JStr "FK"]]) JNull) as (_ & Hf & _).
  split; [apply Hc; by left | by apply Hf].
Defined.

Lemma follow_direction_same_outcome h model value schema instance1 instance2 item cur d :
  same_outcome
    (follow_direction h model value instance1 schema item cur d)
    (follow_direction h model value instance2 schema item cur d).
Proof.
  destruct d as [[direction match_with_table] update_current_table].
  unfold follow_direction.
  destruct (dict_lookup item direction) as [constraint_name |]; [| done].
  destruct (Model.fkey model constraint_name) as [fk | [| []]]; try done.
  case_bool_decide; [| done].
  by destruct (qualified_name h cur).
Qed.

Lemma follow_directions_same_outcome h model value schema instance1 instance2 item ds :
  ∀ cur,
    same_outcome
      (follow_directions h model value instance1 schema item cur ds)
      (follow_directions h model value instance2 schema item cur ds).
Proof.
  induction ds as [| d ds IH]; intros cur; [done |].
  simpl.
  pose proof (follow_direction_same_outcome h model value schema instance1 instance2
                item cur d) as Hd.
  destruct (follow_direction h model value instance1 schema item cur d) as [t1 |],
    (follow_direction h model value instance2 schema item cur d) as [t2 |];
    simpl in *; try done.
  subst t2. apply IH.
Qed.

Lemma source_path_loop_dict h model value instance schema cur d rest :
  source_path_loop h model value instance schema cur (JDict d :: rest) =
  if is_fkey_step d then
    t ← follow_directions h model value instance schema d cur directions;
    source_path_loop h model value instance schema t rest
  else Ok tt.
Proof. reflexivity. Qed.

(** The path loop stops at a halting element: what follows it is never
    looked at. *)
Lemma source_path_loop_halts h model value schema instance1 instance2 pre x post :
  halts_path x = true →
  ∀ cur,
    same_outcome
      (source_path_loop h model value instance1 schema cur (pre ++ x :: post))
      (source_path_loop h model value instance2 schema cur pre).
Proof.
  intros Hx. induction pre as [| item pre IH]; intros cur.
  - simpl. destruct x as [| | | | s | l | d]; try done.
    simpl in Hx. by destruct (is_fkey_step d).
  - destruct item as [| | | | s | l | d]; try done.
    + simpl. destruct (ModelObj.column_definitions (h cur)) as [cds |]; [| done].
      simpl. case_bool_decide; [by destruct (qualified_name h cur) | apply IH].
    + rewrite <- app_comm_cons, !source_path_loop_dict.
      destruct (is_fkey_step d); [| done].
      pose proof (follow_directions_same_outcome h model value schema instance1 instance2
                    d directions cur) as Hd.
      destruct (follow_directions h model value instance1 schema d cur directions) as [t1 |],
        (follow_directions h model value instance2 schema d cur directions) as [t2 |];
        simpl in *; try done.
      subst t2. apply IH.
Qed.

Lemma dict_has_lookup (d : list (string * json)) k :
  dict_has d k = true ↔ is_Some (dict_lookup d k).
Proof.
  induction d as [| [k' v'] d IH]; simpl.
  - split; [done | by intros [v Hv]].
  - case_bool_decide; simpl; [split; eauto | done].
Qed.

Lemma is_fkey_step_spec (d : list (string * json)) :
  is_fkey_step d = true ↔ has_step_pair d.
Proof.
  unfold is_fkey_step, has_step_pair. rewrite existsb_exists. split.
  - intros (io & Hin & Hio).
    apply list_elem_of_In, list_elem_of_filter in Hin as [_ Hin].
    destruct (dict_lookup d io) as [v |] eqn:Hv; [| done].
    apply is_pair_two_element_list in Hio. inversion Hio as [a b Hab]. subst v.
    exists io, a, b. split; [| done].
    rewrite !elem_of_cons, elem_of_nil in Hin. naive_solver.
  - intros (io & a & b & Hio & Hv).
    exists io. split; [| by rewrite Hv].
    apply list_elem_of_In, list_elem_of_filter. split.
    + apply dict_has_lookup. by rewrite Hv.
    + rewrite !elem_of_cons. naive_solver.
Qed.

Lemma halts_path_spec (x : json) : halts_path x = true ↔ halting_element x.
Proof.
  unfold halting_element. destruct x as [| | | | s | l | d]; simpl;
    try (split; [intros _; split; [done | intros d' Hd'; discriminate Hd'] | done]).
  - split; [done | intros [Hs _]; by destruct (Hs s)].
  - rewrite negb_true_iff. split.
    + intros Hd. split; [done |]. intros d' [= <-] Hstep.
      apply is_fkey_step_spec in Hstep. congruence.
    + intros [_ Hd]. destruct (is_fkey_step d) eqn:Hstep; [| done].
      destruct (Hd d eq_refl). by apply is_fkey_step_spec.
Qed.

(** X5.  The path walk of valid-source-entry stops at the first element
    that is neither a string nor a dict in which ["inbound"] or
    ["outbound"] holds a two-element list: the list passes exactly when
    the elements before that one do, and raises exactly when they do,
    whatever that element and the ones after it are. *)
Theorem source_entry_path_halts (h : heap) (T : ident) cds sch (value schema : json)
    (pre post : list json) (x : json) :
  ModelObj.column_definitions (h T) = Some cds →
  ModelObj.schema (h T) = Some sch →
  truthy value = true →
  halting_element x →
  let run items := _validate_source_entry_fn h T value (JList items) schema in
  (run (pre ++ x :: post) = Ok tt ↔ run pre = Ok tt) ∧
  ((∃ e, run (pre ++ x :: post) = Raise e) ↔ (∃ e, run pre = Raise e)).
Proof.
  intros Hcds Hsch Hval Hx%halts_path_spec run.
  assert (Hsame : same_outcome (run (pre ++ x :: post)) (run pre)).
  { unfold run, _validate_source_entry_fn. rewrite Hcds, Hsch, Hval. simpl.
    by apply source_path_loop_halts. }
  destruct (run (pre ++ x :: post)) as [[] | e1], (run pre) as [[] | e2];
    simpl in Hsame; try done.
  split; [split; discriminate |]. split; eauto.
Qed.

Lemma source_entry_path_halts_witness :
  let run items := _validate_source_entry_fn (demo_heap []) 1 (JBool true)
                     (JList items) JNull in
  run ([JStr "A"] ++ JDict [("outbound", JStr "x")] :: [JStr "nope"]) = Ok tt
  ↔ run [JStr "A"] = Ok tt.
Proof.
  refine (proj1 (source_entry_path_halts (demo_heap []) 1 _ _ (JBool true) JNull
                   [JStr "A"] [JStr "nope"] (JDict [("outbound", JStr "x")])
                   eq_refl eq_refl eq_refl _)).
  split; [discriminate |].
  intros d [= <-] (io & a & b & [-> | ->] & Hv); discriminate Hv.
Defined.

Example source_entry_halts_at_unpaired_step_on_T1 :
  _validate_source_entry_fn (demo_heap []) 1 (JBool true)
    (JList [JStr "A"; JDict [("outbound", JStr "x")]; JStr "nope"]) JNull = Ok tt ∧
  _validate_source_entry_fn (demo_heap []) 1 (JBool true)
    (JList [JStr "A"; JDict [("outbound", JList [JStr "s"; JStr "FK_out"; JStr "x"])];
            JStr "nope"]) JNull = Ok tt.
Proof. vm_compute. done. Qed.

(** X6.  A step that carries both directions is followed outbound first
    and inbound second, whatever the order of its keys: from the child of
    the outbound constraint the walk goes to its parent, and from there,
    as the parent of the inbound constraint, to that one's child.  The
    step is taken as soon as one of the two values is a pair. *)
Theorem source_entry_both_directions (h : heap) (T : ident) cds sch (value schema : json)
    (d : list (string * json)) (o i : json) (fo fi : ForeignKey.t) (rest : list json) :
  ModelObj.column_definitions (h T) = Some cds →
  ModelObj.schema (h T) = Some sch →
  truthy value = true →
  dict_lookup d "outbound" = Some o →
  dict_lookup d "inbound" = Some i →
  is_pair o || is_pair i = true →
  Model.fkey (Schema.model sch) o = Ok fo →
  Model.fkey (Schema.model sch) i = Ok fi →
  ForeignKey.table fo = T →
  ForeignKey.pk_table fi = ForeignKey.pk_table fo →
  _validate_source_entry_fn h T value (JList (JDict d :: rest)) schema =
  source_path_loop h (Schema.model sch) value (JList (JDict d :: rest)) schema
    (ForeignKey.table fi) rest.
Proof.
  intros Hcds Hsch Hval Ho Hi Hpair Hfo Hfi Hto Hpi.
  unfold _validate_source_entry_fn. rewrite Hcds, Hsch, Hval.
  cbv beta iota zeta. change (negb true) with false. cbv iota.
  rewrite source_path_loop_dict.
  assert (Hstep : is_fkey_step d = true).
  { unfold is_fkey_step.
    assert (Hhas : ∀ k v, dict_lookup d k = Some v → dict_has d k = true).
    { clear. intros k v. induction d as [| [k' v'] d IH]; simpl; [done |].
      case_bool_decide; [done |]. apply IH. }
    rewrite !filter_cons_True by eauto. simpl. rewrite Ho, Hi.
    by rewrite orb_false_r, orb_comm. }
  rewrite Hstep. unfold directions, follow_directions, follow_direction.
  rewrite Ho, Hfo.
  rewrite bool_decide_eq_false_2 by (intros Hne; by apply Hne). simpl.
  rewrite Hi, Hfi.
  rewrite bool_decide_eq_false_2 by (intros Hne; by apply Hne). done.
Qed.

Lemma source_entry_both_directions_witness :
  let step := [("inbound", JList [JStr "s"; JStr "FK2"]);
               ("outbound", JList [JStr "s"; JStr "FK_out"])] in
  _validate_source_entry_fn (demo_heap []) 1 (JBool true)
    (JList [JDict step; JStr "X"]) JNull =
  source_path_loop (demo_heap []) demo_model (JBool true)
    (JList [JDict step; JStr "X"]) JNull 2 [JStr "X"].
Proof.
  intros step.
  apply (source_entry_both_directions (demo_heap []) 1 [Column.mk "A"; Column.mk "B"]
           demo_schema (JBool true) JNull step
           (JList [JStr "s"; JStr "FK_out"]) (JList [JStr "s"; JStr "FK2"]) FK_out FK2
           [JStr "X"]); reflexivity.
Defined.

(** ** valid-source-key *)

(** X7.  The valid-source-key validator reads the [sources] of the
    object's own source-definitions annotation when it is built.  With a
    dict of sources, an enabled check passes a string exactly when it is a
    key of that dict; without the annotation, or without [sources] in it,
    every string is rejected, the empty one too; an instance that is not a
    string always passes. *)
Theorem source_key_checks_sources (env : Env) (h : heap) (model_obj : ident) (sd : string) :
  tag_attr env "source_definitions" = Ok sd →
  let annotations := ModelObj.annotations (h model_obj) in
  let error value s schema :=
    Raise (keyword_error (Msg "'%s' not found in source definitions" [JStr s])
             None value (JStr s) schema) in
  (∀ d sources,
     dict_lookup annotations sd = Some (JDict d) →
     dict_lookup d "sources" = Some (JDict sources) →
     ∃ f, _validate_source_key_fn env h model_obj = Ok f ∧
          ∀ value s schema, truthy value = true →
            (f value (JStr s) schema = Ok tt ↔ dict_has sources s = true) ∧
            (dict_has sources s = false → f value (JStr s) schema = error value s schema)) ∧
  ((dict_lookup annotations sd = None ∨
    ∃ d, dict_lookup annotations sd = Some (JDict d) ∧ dict_lookup d "sources" = None) →
   ∃ f, _validate_source_key_fn env h model_obj = Ok f ∧
        ∀ value s schema, truthy value = true →
          f value (JStr s) schema = error value s schema) ∧
  (∀ f value instance schema,
     _validate_source_key_fn env h model_obj = Ok f →
     (∀ s, instance ≠ JStr s) →
     f value instance schema = Ok tt).
Proof.
  intros Hsd annotations error.
  split; [| split].
  - intros d sources Hann Hsources.
    eexists. split.
    + unfold _validate_source_key_fn. rewrite Hsd. simpl.
      unfold dict_get. fold annotations. rewrite Hann. simpl.
      unfold dict_get. rewrite Hsources. reflexivity.
    + intros value s schema Hval. cbv beta. rewrite Hval. simpl.
      destruct (dict_has sources s); simpl; split; done.
  - intros Hcase.
    assert (Hkeys : method_get (dict_get annotations sd (JDict [])) "sources" (JDict [])
                    = Ok (JDict [])).
    { unfold dict_get.
      destruct Hcase as [-> | (d & -> & Hd)]; [done |].
      simpl. unfold dict_get. by rewrite Hd. }
    eexists. split.
    + unfold _validate_source_key_fn. rewrite Hsd. simpl.
      fold annotations. rewrite Hkeys. reflexivity.
    + intros value s schema Hval. cbv beta. rewrite Hval. done.
  - intros f value instance schema Hf Hinst.
    unfold _validate_source_key_fn in Hf. rewrite Hsd in Hf. simpl in Hf.
    destruct (method_get _ _ _) as [sourcekeys |]; [| done].
    simpl in Hf. injection Hf as <-.
    destruct (truthy value); [| done].
    destruct instance; try done. by destruct (Hinst s).
Qed.

Lemma source_key_checks_sources_witness :
  let h := demo_heap [(source_definitions_tag, JDict [("sources", JDict [("k1", JNull)])])] in
  ∃ f, _validate_source_key_fn demo_env h 1 = Ok f ∧
       f (JBool true) (JStr "k1") JNull = Ok tt ∧
       f (JBool true) (JStr "k2") JNull =
       Raise (keyword_error (Msg "'%s' not found in source definitions" [JStr "k2"])
                None (JBool true) (JStr "k2") JNull).
Proof.
  intros h.
  destruct (source_key_checks_sources demo_env h 1 source_definitions_tag eq_refl)
    as (Hdict & _).
  destruct (Hdict [("sources", JDict [("k1", JNull)])] [("k1", JNull)] eq_refl eq_refl)
    as (f & Hf & Hcheck).
  exists f. split; [exact Hf |]. split.
  - apply (Hcheck (JBool true) "k1" JNull eq_refl). reflexivity.
  - apply (Hcheck (JBool true) "k2" JNull eq_refl). reflexivity.
Defined.

Lemma prefix_occurs (p s : string) :
  String.prefix p s = true ↔ ∃ post, s = p +:+ post.
Proof.
  revert s. induction p as [| a p IH]; intros s.
  - split; [intros _; by exists s | by destruct s].
  - destruct s as [| b s]; simpl.
    + split; [done | intros [post Hpost]; discriminate].
    + destruct (Ascii.ascii_dec a b) as [-> | Hne].
      * rewrite IH. split; intros [post Hpost]; exists post.
        -- by rewrite Hpost.
        -- change (String b s = String b (p +:+ post)) in Hpost. congruence.
      * split; [done |]. intros [post Hpost].
        change (String b s = String a (p +:+ post)) in Hpost. congruence.
Qed.

Lemma str_contains_occurs (sub s : string) :
  str_contains sub s = true ↔ occurs_in sub s.
Proof.
  unfold occurs_in. induction s as [| c s IH].
  - change (str_contains sub EmptyString) with (String.prefix sub EmptyString || false).
    rewrite orb_false_r, prefix_occurs. split.
    + intros [post Hpost]. by exists EmptyString, post.
    + intros ([| c pre] & post & Hs); [eauto | discriminate Hs].
  - change (str_contains sub (String c s))
      with (String.prefix sub (String c s) || str_contains sub s).
    rewrite orb_true_iff, prefix_occurs, IH. split.
    + intros [[post Hpost] | (pre & post & Hs)].
      * by exists EmptyString, post.
      * exists (String c pre), post. by rewrite Hs.
    + intros ([| c' pre] & post & Hs).
      * left. eauto.
      * right. change (String c s = String c' (pre +:+ sub +:+ post)) in Hs.
        injection Hs as <- Hs. eauto.
Qed.

(** X8.  When [sources] is not a dict the membership test is Python's
    [in] on that value: a list of sources passes its string elements, a
    string of sources passes every substring of it, and a number, boolean
    or [null] there makes an enabled check of a string raise [TypeError]. *)
Theorem source_key_sources_of_other_types (env : Env) (h : heap) (model_obj : ident)
    (sd : string) (d : list (string * json)) (sources : json) :
  tag_attr env "source_definitions" = Ok sd →
  dict_lookup (ModelObj.annotations (h model_obj)) sd = Some (JDict d) →
  dict_lookup d "sources" = Some sources →
  ∃ f, _validate_source_key_fn env h model_obj = Ok f ∧
       ∀ value s schema, truthy value = true →
         match sources with
         | JList l => f value (JStr s) schema = Ok tt ↔ JStr s ∈ l
         | JStr text => f value (JStr s) schema = Ok tt ↔ occurs_in s text
         | JDict keys => f value (JStr s) schema = Ok tt ↔ dict_has keys s = true
         | _ => f value (JStr s) schema = Raise (Builtin TypeError)
         end.
Proof.
  intros Hsd Hann Hsources.
  eexists. split.
  - unfold _validate_source_key_fn. rewrite Hsd. simpl.
    unfold dict_get. rewrite Hann. simpl.
    unfold dict_get. rewrite Hsources. reflexivity.
  - intros value s schema Hval. cbv beta. rewrite Hval.
    destruct sources as [| b | z | fl | text | l | keys]; simpl; try done.
    + rewrite <- str_contains_occurs.
      destruct (str_contains s text); simpl; split; done.
    + assert (Hl : existsb (fun x => match x with
                                      | JStr s' => bool_decide (s' = s)
                                      | _ => false
                                      end) l = true ↔ JStr s ∈ l).
      { rewrite existsb_exists. split.
        - intros (x & Hx & Hb). destruct x; try done.
          apply bool_decide_eq_true in Hb. subst. by apply list_elem_of_In.
        - intros Hin. exists (JStr s). split; [by apply list_elem_of_In |].
          by apply bool_decide_eq_true. }
      rewrite <- Hl. destruct (existsb _ l); simpl; split; done.
    + destruct (dict_has keys s); simpl; split; done.
Qed.

Lemma source_key_sources_of_other_types_witness :
  let h := demo_heap [(source_definitions_tag, JDict [("sources", JStr "one,two")])] in
  ∃ f, _validate_source_key_fn demo_env h 1 = Ok f ∧
       (f (JBool true) (JStr "e,t") JNull = Ok tt ↔ occurs_in "e,t" "one,two").
Proof.
  intros h.
  destruct (source_key_sources_of_other_types demo_env h 1 source_definitions_tag
              [("sources", JStr "one,two")] (JStr "one,two") eq_refl eq_refl eq_refl)
    as (f & Hf & Hcheck).
  exists f. split; [exact Hf |].
  exact (Hcheck (JBool true) "e,t" JNull eq_refl).
Defined.

Example source_key_on_T1 :
  let h := demo_heap [(source_definitions_tag, JDict [("sources", JDict [("k1", JNull)])])] in
  (f ← _validate_source_key_fn demo_env h 1; f (JBool true) (JStr "k1") JNull) = Ok tt ∧
  (f ← _validate_source_key_fn demo_env h 1; f (JBool true) (JStr "k2") JNull) =
  Raise (keyword_error (Msg "'%s' not found in source definitions" [JStr "k2"])
           None (JBool true) (JStr "k2") JNull) ∧
  (f ← _validate_source_key_fn demo_env (demo_heap []) 1; f (JBool true) (JStr "k1") JNull) =
  Raise (keyword_error (Msg "'%s' not found in source definitions" [JStr "k1"])
           None (JBool true) (JStr "k1") JNull).
Proof. vm_compute. done. Qed.

(** ** The schema container, further *)

(** X9.  A lookup in the schema container that returns a document leaves
    it stored under the tag, so that the next lookup of the tag returns
    the same document without touching the container, and changes no other
    entry; a lookup that raises leaves the container as it was. *)
Theorem schema_lookup_is_cached (env : Env) (key : string) (st : cache) :
  let r := _schemas_getitem env key st in
  match r.1 with
  | Ok v =>
    r.2 !! key = Some v ∧
    _schemas_getitem env key r.2 = (Ok v, r.2) ∧
    ∀ key', key' ≠ key → r.2 !! key' = st !! key'
  | Raise _ => r.2 = st
  end.
Proof.
  intros r. unfold r. clear r.
  destruct (_schemas_getitem env key st) as [res st'] eqn:Hget. simpl.
  unfold _schemas_getitem in Hget.
  destruct (st !! key) as [v |] eqn:Hst.
  - injection Hget as <- <-. split; [done |]. split; [by apply getitem_hit | done].
  - destruct (_abbrev env !! key) as [a |]; [| by injection Hget as <- <-].
    destruct (load_resource env (schema_path a)) as [v | e];
      injection Hget as <- <-; [| done].
    split; [by rewrite lookup_insert_eq |].
    split; [apply getitem_hit; by rewrite lookup_insert_eq |].
    intros key' Hne. by rewrite lookup_insert_ne.
Qed.

Lemma abbrev_size (env : Env) : size (_abbrev env) ≤ length (tag env).
Proof.
  unfold _abbrev.
  assert (H : ∀ (l : list (string * string)) (m : gmap string string),
            size (foldl (fun m kv => <[kv.2 := kv.1]> m) m l) ≤ size m + length l).
  { induction l as [| kv l IH]; intros m; simpl; [lia |].
    etrans; [apply IH |]. rewrite map_size_insert.
    destruct (m !! kv.2); simpl; lia. }
  etrans; [apply H |]. by rewrite map_size_empty.
Qed.

(** X10.  The number of documents the container holds ([__len__]) never
    decreases over a call of [validate] and, for a container that holds
    only loaded documents, never exceeds the number of entries of the tag
    registry. *)
Theorem container_length_bounds (env : Env) (store : list (json * json)) (h : heap)
    (model_obj : ident) (tag_name : option string) (st : cache) :
  cache_ok env st →
  let st' := (validate env store h model_obj tag_name st).2 in
  _schemas_len st ≤ _schemas_len st' ∧ _schemas_len st' ≤ length (tag env).
Proof.
  intros Hok st'. unfold _schemas_len. split.
  - apply map_subseteq_size, map_subseteq_spec.
    intros key v Hkey. by apply validate_keeps.
  - etrans; [| apply abbrev_size].
    rewrite <- !size_dom. apply subseteq_size.
    intros key [v Hv]%elem_of_dom.
    destruct (validate_cache_ok env store h model_obj tag_name st Hok key v Hv)
      as (a & Ha & _).
    apply elem_of_dom. eauto.
Qed.

Lemma container_length_bounds_witness :
  let st' := (validate demo_env [] (demo_heap [(export_tag, JNull)]) 1 None ∅).2 in
  _schemas_len (∅ : cache) ≤ _schemas_len st' ∧ _schemas_len st' ≤ 3.
Proof.
  apply (container_length_bounds demo_env [] (demo_heap [(export_tag, JNull)]) 1 None ∅).
  apply cache_ok_empty.
Defined.

(** ** [_validate] and [validate], further *)

(** X11.  [_validate] changes the schema container only by storing the
    document of its own tag: either the container is left as it was, or
    the tag is a key of the annotations, was not stored yet, is registered,
    and the document loaded from its resource is now stored under it. *)
Theorem _validate_stores_only_its_schema (env : Env) (store : list (json * json))
    (h : heap) (model_obj : ident) (t : string) (st : cache) :
  let st' := (_validate env store h model_obj t st).2 in
  st' = st ∨
  (dict_has (ModelObj.annotations (h model_obj)) t = true ∧
   st !! t = None ∧
   ∃ a v, _abbrev env !! t = Some a ∧
          load_resource env (schema_path a) = Ok v ∧
          st' = <[t := v]> st).
Proof.
  intros st'. unfold st'.
  destruct (dict_has (ModelObj.annotations (h model_obj)) t) eqn:Hin.
  - rewrite _validate_present by done. simpl. unfold _schemas_getitem.
    destruct (st !! t) as [v |] eqn:Hst; [by left |].
    destruct (_abbrev env !! t) as [a |] eqn:Ha; [| by left].
    destruct (load_resource env (schema_path a)) as [v | e] eqn:Hload; [| by left].
    right. eauto 10.
  - left. by rewrite _validate_absent.
Qed.

Lemma validate_each_concat env store h model_obj names :
  ∀ errors (st st' : cache),
    same_schemas env st st' →
    Forall (fun t => ∃ es, (_validate env store h model_obj t st).1 = Ok es) names →
    (validate_each env store h model_obj names errors st').1 =
    Ok (errors ++
        concat ((fun t => returned_errors (_validate env store h model_obj t st).1)
                  <$> names)).
Proof.
  induction names as [| t names IH]; intros errors st st' Hsame Hall.
  - simpl. by rewrite app_nil_r.
  - apply Forall_cons in Hall as [[es Hes] Hall].
    simpl. unfold mbind, M_bind.
    pose proof (_validate_respects env store h model_obj t st st' Hsame) as Hres.
    pose proof (_validate_same_schemas env store h model_obj t st') as Hnext.
    rewrite Hes in *. simpl.
    destruct (_validate env store h model_obj t st') as [r st1]. simpl in *. subst r.
    rewrite (IH (errors ++ es) st st1); [by rewrite app_assoc | | done].
    by apply (same_schemas_trans env st st' st1).
Qed.

(** X12.  Without a tag, [validate] returns the errors of the annotations
    in the order of the annotations: when validating each tag on its own
    returns, the result is the concatenation of those results, however the
    container fills up on the way. *)
Theorem validate_all_concatenates (env : Env) (store : list (json * json)) (h : heap)
    (model_obj : ident) (st : cache) :
  let tags := fst <$> ModelObj.annotations (h model_obj) in
  Forall (fun t => ∃ es, (_validate env store h model_obj t st).1 = Ok es) tags →
  (validate env store h model_obj None st).1 =
  Ok (concat ((fun t => returned_errors (_validate env store h model_obj t st).1) <$> tags)).
Proof.
  intros tags Hall.
  exact (validate_each_concat env store h model_obj tags [] st st
           (same_schemas_refl env st) Hall).
Qed.

Lemma validate_all_concatenates_witness :
  let h := demo_heap [("x", JNull); (export_tag, JNull); ("y", JNull)] in
  (validate demo_env [] h 1 None ∅).1 =
  Ok (concat ((fun t => returned_errors (_validate demo_env [] h 1 t ∅).1)
                <$> ["x"; export_tag; "y"])).
Proof.
  intros h.
  apply (validate_all_concatenates demo_env [] h 1 ∅).
  repeat constructor; eexists; vm_compute; reflexivity.
Defined.

Lemma validate_each_first_exception env store h model_obj pre t post e :
  ∀ errors (st st' : cache),
    same_schemas env st st' →
    Forall (fun t => ∃ es, (_validate env store h model_obj t st).1 = Ok es) pre →
    (_validate env store h model_obj t st).1 = Raise e →
    (validate_each env store h model_obj (pre ++ t :: post) errors st').1 = Raise e.
Proof.
  induction pre as [| t0 pre IH]; intros errors st st' Hsame Hpre Ht.
  - simpl. unfold mbind, M_bind.
    pose proof (_validate_respects env store h model_obj t st st' Hsame) as Hres.
    rewrite Ht in Hres.
    destruct (_validate env store h model_obj t st') as [r st1]. simpl in *. by subst r.
  - apply Forall_cons in Hpre as [[es Hes] Hpre].
    simpl. unfold mbind, M_bind.
    pose proof (_validate_respects env store h model_obj t0 st st' Hsame) as Hres.
    pose proof (_validate_same_schemas env store h model_obj t0 st') as Hnext.
    rewrite Hes in Hres.
    destruct (_validate env store h model_obj t0 st') as [r st1]. simpl in *. subst r.
    apply (IH (errors ++ es) st st1); [| done | done].
    by apply (same_schemas_trans env st st' st1).
Qed.

Lemma getitem_other env key key' (st : cache) :
  key' ≠ key → (_schemas_getitem env key st).2 !! key' = st !! key'.
Proof.
  intros Hne. unfold _schemas_getitem.
  destruct (st !! key); [done |].
  destruct (_abbrev env !! key) as [a |]; [| done].
  destruct (load_resource env (schema_path a)); [| done].
  simpl. by rewrite lookup_insert_ne.
Qed.

Lemma _validate_other env store h model_obj t key (st : cache) :
  key ≠ t → (_validate env store h model_obj t st).2 !! key = st !! key.
Proof.
  intros Hne.
  destruct (_validate_state env store h model_obj t st) as [-> | ->]; [done |].
  by apply getitem_other.
Qed.

Lemma validate_each_first_exception_other env store h model_obj pre t post e key :
  key ∉ pre → key ≠ t →
  ∀ errors (st st' : cache),
    same_schemas env st st' →
    Forall (fun t => ∃ es, (_validate env store h model_obj t st).1 = Ok es) pre →
    (_validate env store h model_obj t st).1 = Raise e →
    (validate_each env store h model_obj (pre ++ t :: post) errors st').2 !! key
      = st' !! key.
Proof.
  intros Hpre_key Ht_key.
  induction pre as [| t0 pre IH]; intros errors st st' Hsame Hpre Ht.
  - simpl. unfold mbind, M_bind.
    pose proof (_validate_respects env store h model_obj t st st' Hsame) as Hres.
    pose proof (_validate_other env store h model_obj t key st' Ht_key) as Hother.
    rewrite Ht in Hres.
    destruct (_validate env store h model_obj t st') as [r st1]. simpl in *. by subst r.
  - apply Forall_cons in Hpre as [[es Hes] Hpre].
    apply not_elem_of_cons in Hpre_key as [Hne Hpre_key].
    simpl. unfold mbind, M_bind.
    pose proof (_validate_respects env store h model_obj t0 st st' Hsame) as Hres.
    pose proof (_validate_same_schemas env store h model_obj t0 st') as Hnext.
    pose proof (_validate_other env store h model_obj t0 key st' Hne) as Hother.
    rewrite Hes in Hres.
    destruct (_validate env store h model_obj t0 st') as [r st1]. simpl in *. subst r.
    rewrite <- Hother.
    apply (IH Hpre_key (errors ++ es) st st1); [| done | done].
    by apply (same_schemas_trans env st st' st1).
Qed.

(** X13.  Without a tag, the first annotation whose validation lets an
    exception out ends the whole call with that exception: the errors
    collected for the annotations before it are lost, and the annotations
    after it are not validated, so that the container is changed only at
    the tags up to that one and no schema of a later tag is loaded. *)
Theorem validate_all_stops_at_first_exception (env : Env) (store : list (json * json))
    (h : heap) (model_obj : ident) (st : cache) (pre post : list string) (t : string)
    (e : exn) :
  fst <$> ModelObj.annotations (h model_obj) = pre ++ t :: post →
  Forall (fun t => ∃ es, (_validate env store h model_obj t st).1 = Ok es) pre →
  (_validate env store h model_obj t st).1 = Raise e →
  (validate env store h model_obj None st).1 = Raise e ∧
  ∀ key, key ∉ pre → key ≠ t →
         (validate env store h model_obj None st).2 !! key = st !! key.
Proof.
  intros Htags Hpre Ht. unfold validate. rewrite Htags. split.
  - by apply (validate_each_first_exception env store h model_obj pre t post e [] st st).
  - intros key Hkey_pre Hkey_t.
    by apply (validate_each_first_exception_other env store h model_obj pre t post e key
                Hkey_pre Hkey_t [] st st).
Qed.

Lemma validate_all_stops_at_first_exception_witness :
  let h := demo_heap [("x", JNull); (source_definitions_tag, JList []);
                      (export_tag, JNull)] in
  (validate demo_env [] h 1 None ∅).1 = Raise (Builtin AttributeError) ∧
  (validate demo_env [] h 1 None ∅).2 !! export_tag = None.
Proof.
  intros h.
  destruct (validate_all_stops_at_first_exception demo_env [] h 1 ∅
              ["x"] [export_tag] source_definitions_tag (Builtin AttributeError))
    as [Hraise Hother].
  - reflexivity.
  - repeat constructor. eexists. vm_compute. reflexivity.
  - vm_compute. reflexivity.
  - split; [exact Hraise |].
    rewrite (Hother export_tag); [apply lookup_empty | | discriminate].
    intros Hin. apply elem_of_cons in Hin as [Heq | Hin];
      [discriminate Heq | by apply elem_of_nil in Hin].
Defined.

Lemma validate_each_length env store h model_obj names :
  ∀ errors (st : cache),
    match (validate_each env store h model_obj names errors st).1 with
    | Ok result => length result ≤ length errors + length names
    | Raise e => handled e = false
    end.
Proof.
  induction names as [| t names IH]; intros errors st; simpl; [lia |].
  unfold mbind, M_bind.
  assert (Hone : match (_validate env store h model_obj t st).1 with
                 | Ok es => length es ≤ 1
                 | Raise e => handled e = false
                 end).
  { unfold _validate.
    destruct (_validate_body env store h model_obj t st) as [[[] | [e | []]] st'];
      simpl; auto. }
  destruct (_validate env store h model_obj t st) as [[es | e] st1]; simpl in *; [| done].
  specialize (IH (errors ++ es) st1).
  destruct (validate_each env store h model_obj names (errors ++ es) st1).1; [| done].
  rewrite length_app in IH. lia.
Qed.

(** X14.  Without a tag, [validate] returns at most one error for each
    annotation of the object; what it raises instead is an exception of
    none of the three classes [_validate] handles. *)
Theorem validate_all_at_most_one_error_each (env : Env) (store : list (json * json))
    (h : heap) (model_obj : ident) (st : cache) :
  match (validate env store h model_obj None st).1 with
  | Ok errors => length errors ≤ length (ModelObj.annotations (h model_obj))
  | Raise e => handled e = false
  end.
Proof.
  unfold validate.
  pose proof (validate_each_length env store h model_obj
                (fst <$> ModelObj.annotations (h model_obj)) [] st) as H.
  destruct (validate_each _ _ _ _ _ _ _).1; [| done].
  by rewrite length_fmap in H.
Qed.

Lemma dict_lookup_has (d : list (string * json)) k v :
  dict_lookup d k = Some v → dict_has d k = true.
Proof.
  induction d as [| [k' v'] d IH]; simpl; [done |].
  case_bool_decide; [done |]. apply IH.
Qed.

(** X15.  For a non-empty tag carried by the object whose schema is found,
    once the resolver and the five keyword validators are built, the
    result of [validate] is decided by the run of the extended validator
    on the annotation value: nothing when it returns, its error when it
    raises a [ValidationError], nothing when it raises
    [FileNotFoundError], the unknown-tag error when it raises a [KeyError]
    (although the tag is known), and any other exception is let out. *)
Theorem validate_reports_engine_outcome (env : Env) (store : list (json * json))
    (h : heap) (model_obj : ident) (t : string) (st : cache) (schema instance : json)
    (resolver : Resolver env) (valid_source_key : ValidatorFn) :
  t ≠ EmptyString →
  dict_lookup (ModelObj.annotations (h model_obj)) t = Some instance →
  (_schemas_getitem env t st).1 = Ok schema →
  RefResolver_from_schema env schema store = Ok resolver →
  _validate_source_key_fn env h model_obj = Ok valid_source_key →
  let keywords :=
    [ ("valid-columns", _validate_columns_fn h model_obj);
      ("valid-source-key", valid_source_key);
      ("valid-source-entry", _validate_source_entry_fn h model_obj);
      ("valid-foreign-keys", _validate_foreign_keys_fn h model_obj);
      ("valid-sort-key", _validate_sort_key_fn h model_obj) ] in
  let result := (validate env store h model_obj (Some t) st).1 in
  match validator_validate env schema resolver keywords instance with
  | Ok _ => result = Ok []
  | Raise (ValidationErr e) => result = Ok [e]
  | Raise (Builtin KeyError) => result = Ok [unknown_tag_error t]
  | Raise (Builtin FileNotFoundError) => result = Ok []
  | Raise e => result = Raise e
  end.
Proof.
  intros Ht Hinst Hschema Hres Hkey keywords result.
  assert (Hresult : result =
            except_clauses t (validator_validate env schema resolver keywords instance)).
  { unfold result. rewrite validate_single by done.
    rewrite _validate_present by (by eapply dict_lookup_has).
    simpl. rewrite Hschema. simpl.
    unfold validate_annotation. rewrite Hres. simpl. rewrite Hkey. simpl.
    by rewrite Hinst. }
  rewrite Hresult.
  destruct (validator_validate env schema resolver keywords instance) as [[] | [e | []]];
    done.
Qed.

Lemma validate_reports_engine_outcome_witness :
  (validate demo_env [] (demo_heap [(export_tag, JInt 1)]) 1 (Some export_tag) ∅).1 = Ok [].
Proof.
  pose proof (validate_reports_engine_outcome demo_env [] (demo_heap [(export_tag, JInt 1)])
                1 export_tag ∅ (JDict [("$id", JStr "schemas/export.schema.json")])
                (JInt 1) tt) as H.
  destruct (_validate_source_key_fn demo_env (demo_heap [(export_tag, JInt 1)]) 1)
    as [f |] eqn:Hf; [| discriminate Hf].
  refine (H f _ _ _ _ _);
    [discriminate | reflexivity | vm_compute; reflexivity | reflexivity | reflexivity].
Defined.

Lemma getitem_stored (env : Env) (key : string) (st : cache) :
  let r := _schemas_getitem env key st in
  match r.1 with
  | Ok v =>
    r.2 !! key = Some v ∧
    _schemas_getitem env key r.2 = (Ok v, r.2) ∧
    ∀ key', key' ≠ key → r.2 !! key' = st !! key'
  | Raise _ => r.2 = st
  end.
Proof.
  intros r. unfold r. clear r.
  pose proof (getitem_result env key st) as Hres.
  pose proof (getitem_other env key) as Hother.
  destruct (_schemas_getitem env key st) as [[v | e] st'] eqn:Hget; simpl in *.
  - assert (Hv : st' !! key = Some v).
    { unfold _schemas_getitem in Hget.
      destruct (st !! key) as [v0 |] eqn:Hst; [by injection Hget as <- <- |].
      destruct (_abbrev env !! key) as [a |]; [| done].
      destruct (load_resource env (schema_path a)); [| done].
      injection Hget as <- <-. by rewrite lookup_insert_eq. }
    split; [done |]. split; [by apply getitem_hit |].
    intros key' Hne. specialize (Hother key' st Hne). by rewrite Hget in Hother.
  - unfold _schemas_getitem in Hget.
    destruct (st !! key); [done |].
    destruct (_abbrev env !! key) as [a |]; [| by injection Hget].
    destruct (load_resource env (schema_path a)); [done | by injection Hget].
Qed.

(** X16.  When the module-level [_schema_store] is built without an
    exception, the container holds the documents of the export and
    source-definitions tags under their tags and nothing else.  With
    strings as their [$id], the store maps each [$id] to its document when
    the two differ, and has the single entry of the first [$id] with the
    source-definitions document when they are equal. *)
Theorem schema_store_init_loads_two_schemas (env : Env) (store : list (json * json))
    (st : cache) :
  _schema_store_init env ∅ = (Ok store, st) →
  ∃ t1 t2 s1 s2 id1 id2,
    tag_attr env "export" = Ok t1 ∧
    tag_attr env "source_definitions" = Ok t2 ∧
    subscript s1 "$id" = Ok id1 ∧
    subscript s2 "$id" = Ok id2 ∧
    st !! t1 = Some s1 ∧
    st !! t2 = Some s2 ∧
    (∀ key, is_Some (st !! key) → key = t1 ∨ key = t2) ∧
    (∀ a b, id1 = JStr a → id2 = JStr b →
            (a ≠ b → store = [(JStr a, s1); (JStr b, s2)]) ∧
            (a = b → store = [(JStr a, s2)])).
Proof.
  assert (Hentry : ∀ t (st0 st1 : cache) k v,
            store_entry env t st0 = (Ok (k, v), st1) →
            subscript v "$id" = Ok k ∧ st1 !! t = Some v ∧
            (∀ key, st0 !! key = st1 !! key ∨ (key = t ∧ st0 !! key = None)) ∧
            (∀ key v', st0 !! key = Some v' → st1 !! key = Some v')).
  { intros t st0 st1 k v. unfold store_entry, mbind, M_bind, lift.
    pose proof (getitem_stored env t st0) as Hfirst.
    assert (Hkeep := getitem_keeps env t).
    destruct (_schemas_getitem env t st0) as [[s |] st0'] eqn:Hget; [| done].
    simpl in Hfirst. destruct Hfirst as (Hs & Hagain & Hother).
    destruct (subscript s "$id") as [k' |] eqn:Hid; [| done].
    destruct (hashable k'); [| done].
    rewrite Hagain. intros [= <- <- <-].
    split; [done |]. split; [done |]. split.
    - intros key. destruct (decide (key = t)) as [-> | Hne].
      + destruct (st0 !! t) as [v0 |] eqn:H0; [| by right].
        left. symmetry. specialize (Hkeep t v0 st0 H0). by rewrite Hget in Hkeep.
      + left. symmetry. by apply Hother.
    - intros key v' H0. specialize (Hkeep key v' st0 H0). by rewrite Hget in Hkeep. }
  unfold _schema_store_init, mbind, M_bind, lift.
  destruct (tag_attr env "export") as [t1 |]; [| done].
  destruct (tag_attr env "source_definitions") as [t2 |]; [| done].
  destruct (store_entry env t1 ∅) as [[[id1 s1] |] st1] eqn:H1; [| done].
  destruct (store_entry env t2 st1) as [[[id2 s2] |] st2] eqn:H2; [| done].
  intros [= <- <-].
  apply Hentry in H1 as (Hid1 & Hs1 & Hframe1 & _).
  apply Hentry in H2 as (Hid2 & Hs2 & Hframe2 & Hkeep2).
  exists t1, t2, s1, s2, id1, id2.
  repeat (split; [done |]). split; [by apply Hkeep2 |]. split; [done |]. split.
  - intros key [v Hv].
    destruct (Hframe2 key) as [H2 | [-> _]]; [| by right].
    destruct (Hframe1 key) as [H1 | [-> _]]; [| by left].
    rewrite <- H2, <- H1, lookup_empty in Hv. done.
  - intros a b -> ->. simpl.
    assert (Hsame : t1 = t2 → a = b).
    { intros <-. apply Hkeep2 in Hs1. rewrite Hs2 in Hs1. injection Hs1 as <-.
      rewrite Hid1 in Hid2. by injection Hid2 as <-. }
    split.
    + intros Hne. rewrite bool_decide_eq_false_2 by (intros Ht; by apply Hne, Hsame).
      by rewrite (bool_decide_eq_false_2 (a = b)).
    + intros <-. by rewrite (bool_decide_eq_true_2 (a = a)), orb_true_r.
Qed.

Lemma schema_store_init_loads_two_schemas_witness :
  let st := (_schema_store_init demo_env ∅).2 in
  ∃ t1 t2 s1 s2,
    tag_attr demo_env "export" = Ok t1 ∧
    tag_attr demo_env "source_definitions" = Ok t2 ∧
    st !! t1 = Some s1 ∧
    st !! t2 = Some s2 ∧
    ∀ key, is_Some (st !! key) → key = t1 ∨ key = t2.
Proof.
  intros st.
  assert (Hinit : (_schema_store_init demo_env ∅).1 =
            Ok [ (JStr "schemas/export.schema.json",
                  JDict [("$id", JStr "schemas/export.schema.json")]);
                 (JStr "schemas/source_definitions.schema.json",
                  JDict [("$id", JStr "schemas/source_definitions.schema.json")]) ])
    by (vm_compute; reflexivity).
  destruct (schema_store_init_loads_two_schemas demo_env
              [ (JStr "schemas/export.schema.json",
                 JDict [("$id", JStr "schemas/export.schema.json")]);
                (JStr "schemas/source_definitions.schema.json",
                 JDict [("$id", JStr "schemas/source_definitions.schema.json")]) ] st)
    as (t1 & t2 & s1 & s2 & id1 & id2 & H1 & H2 & _ & _ & H3 & H4 & H5 & _).
  { rewrite <- Hinit. apply surjective_pairing. }
  exists t1, t2, s1, s2. repeat split; assumption.
Defined.

Example schema_store_with_one_id :
  let env := {|
    tag := tag demo_env;
    load_resource := fun path => Ok (JDict [("$id", JStr "same"); ("from", JStr path)]);
    Resolver := unit;
    RefResolver_from_schema := fun _ _ => Ok tt;
    validator_validate := fun _ _ _ _ => Ok tt
  |} in
  (_schema_store_init env ∅).1 =
  Ok [ (JStr "same",
        JDict [("$id", JStr "same");
               ("from", JStr "schemas/source_definitions.schema.json")]) ].
Proof. vm_compute. reflexivity. Qed.

(** X17.  From the import of the module on, whatever objects and tags
    [validate] is called on, the container holds for a tag only the
    document that the resource of the tag's abbreviation holds: only
    registered tags are stored, and never a document from elsewhere. *)
Theorem container_holds_only_loaded_documents (env : Env) (store : list (json * json))
    (st : cache) :
  later_container env store (_schema_store_init env ∅).2 st →
  cache_ok env st.
Proof.
  induction 1 as [| st' h model_obj tag_name _ IH].
  - apply schema_store_init_cache_ok.
  - by apply validate_cache_ok.
Qed.

Lemma container_holds_only_loaded_documents_witness :
  cache_ok demo_env
    (validate demo_env [] (demo_heap [(display_tag, JNull)]) 1 None
       (_schema_store_init demo_env ∅).2).2.
Proof.
  apply (container_holds_only_loaded_documents demo_env []).
  apply later_call. apply later_now.
Defined.

(** X18.  The reverse table [_abbrev] inverts the tag registry: when no
    tag name occurs twice in the registry, a tag name is mapped to an
    attribute name exactly when the registry has that entry. *)
Theorem abbrev_inverts_registry (env : Env) (key a : string) :
  NoDup (snd <$> tag env) →
  _abbrev env !! key = Some a ↔ (a, key) ∈ tag env.
Proof.
  intros Hnodup. unfold _abbrev. split; [intros H |].
  - apply abbrev_foldl in H as [H | H]; [by rewrite lookup_empty in H | done].
  - assert (Hgen : ∀ (l : list (string * string)) (m : gmap string string),
              NoDup (snd <$> l) →
              ((a, key) ∈ l ∨ (m !! key = Some a ∧ key ∉ snd <$> l)) →
              foldl (fun m kv => <[kv.2 := kv.1]> m) m l !! key = Some a).
    { induction l as [| [a' k'] l IH]; intros m Hl Hcase; simpl.
      - destruct Hcase as [Hin | [Hm _]]; [by apply elem_of_nil in Hin | done].
      - apply NoDup_cons in Hl as [Hk' Hl]. apply IH; [done |].
        destruct Hcase as [Hin | [Hm Hnot]].
        + apply elem_of_cons in Hin as [[= <- <-] | Hin].
          * right. split; [by rewrite lookup_insert_eq | done].
          * by left.
        + right. simpl in Hnot. apply not_elem_of_cons in Hnot as [Hne Hnot].
          split; [by rewrite lookup_insert_ne | done]. }
    intros Hin. apply Hgen; [done | by left].
Qed.

Lemma abbrev_inverts_registry_witness :
  _abbrev demo_env !! display_tag = Some "display"%string
  ↔ ("display"%string, display_tag) ∈ tag demo_env.
Proof.
  apply abbrev_inverts_registry. simpl.
  repeat (apply NoDup_cons; split; [rewrite ?elem_of_cons, elem_of_nil; intros H;
    repeat destruct H as [H | H]; discriminate || done |]).
  apply NoDup_nil. done.
Defined.

(** ** Upload processors *)

Section ProcessorFacts.
Context (Value : Type) (truth : Value -> bool) (empty_dict : Value).

Lemma kw_setitem_fresh (d : list (string * Value)) k v :
  k ∉ fst <$> d → Processors.kw_setitem Value d k v = d ++ [(k, v)].
Proof.
  induction d as [| [k' v'] d IH]; simpl; [done |].
  intros [Hne Hnot]%not_elem_of_cons.
  rewrite bool_decide_eq_false_2 by done. by rewrite IH.
Qed.

Lemma kw_copy (kw acc : list (string * Value)) :
  NoDup (fst <$> acc ++ kw) →
  foldl (fun ctx kv => Processors.kw_setitem Value ctx kv.1 kv.2) acc kw = acc ++ kw.
Proof.
  revert acc. induction kw as [| [k v] kw IH]; intros acc Hnodup; simpl.
  - by rewrite app_nil_r.
  - rewrite kw_setitem_fresh.
    + rewrite IH; [by rewrite <- app_assoc |]. by rewrite <- app_assoc.
    + rewrite fmap_app in Hnodup. apply NoDup_app in Hnodup as (_ & Hdisj & _).
      intros Hin. apply (Hdisj k Hin). simpl. left.
Qed.

(** X19.  [LoggingProcessor.process] returns the empty dict whether or
    not debug logging is on, and what it logs when it is on is a copy of
    the keyword arguments the processor was built with, in their order
    (the keys of keyword arguments being distinct); the processor's own
    [kwargs] are those arguments. *)
Theorem logging_processor_returns_empty (debug_enabled : bool) (class_name : string)
    (kw : list (string * Value)) :
  NoDup (fst <$> kw) →
  let self := Processors.BaseProcessor_init Value truth empty_dict kw in
  Processors.LoggingProcessor_process Value debug_enabled class_name self =
    (if debug_enabled then Some (class_name, kw) else None, []) ∧
  Processors.kwargs Value self = kw.
Proof.
  intros Hnodup self. split; [| done].
  unfold Processors.LoggingProcessor_process. simpl.
  destruct debug_enabled; [| done].
  by rewrite (kw_copy kw []).
Qed.

End ProcessorFacts.

Lemma logging_processor_returns_empty_witness :
  let kw := [("processor", JStr "log"); ("processor_params", JDict [("a", JInt 1)])] in
  Processors.LoggingProcessor_process json true "LoggingProcessor"
    (Processors.BaseProcessor_init json truthy (JDict []) kw) =
  (Some ("LoggingProcessor"%string, kw), []).
Proof.
  intros kw.
  apply (logging_processor_returns_empty json truthy (JDict []) true "LoggingProcessor" kw).
  simpl. apply NoDup_cons. split; [| apply NoDup_singleton].
  intros Hin. apply elem_of_cons in Hin as [Heq | Hin];
    [discriminate Heq | by apply elem_of_nil in Hin].
Defined.

(** ** Errors of a path step *)

(** X20.  An outbound step at the head of a valid-source-entry path fails
    in one of three ways: a constraint the model does not know ([KeyError]
    from [model.fkey]) gives a validation error with that [KeyError] as
    its cause; a constraint whose [table] is another table gives the
    not-associated error naming the table under validation; any other
    exception of [model.fkey] is let out unchanged. *)
Theorem source_entry_outbound_step_errors (h : heap) (T : ident) cds sch
    (value schema : json) (a b : json) (rest : list json) :
  ModelObj.column_definitions (h T) = Some cds →
  ModelObj.schema (h T) = Some sch →
  truthy value = true →
  let name := JList [a; b] in
  let instance := JList (JDict [("outbound", name)] :: rest) in
  let run := _validate_source_entry_fn h T value instance schema in
  (Model.fkey (Schema.model sch) name = Raise (Builtin KeyError) →
   run = Raise (keyword_error (Msg "%s not found in model fkeys" [name])
                  (Some KeyError) value instance schema)) ∧
  (∀ fk n,
     Model.fkey (Schema.model sch) name = Ok fk →
     ForeignKey.table fk ≠ T →
     ModelObj.name (h T) = Some n →
     run = Raise (keyword_error
                    (Msg "%s foreign key %s not associated with %s"
                       [JStr "outbound"; name; JList [JStr (Schema.name sch); JStr n]])
                    None value instance schema)) ∧
  (∀ e,
     Model.fkey (Schema.model sch) name = Raise e →
     e ≠ Builtin KeyError →
     run = Raise e).
Proof.
  intros Hcds Hsch Hval name instance run.
  assert (Hrun : run =
            t ← follow_directions h (Schema.model sch) value instance schema
                  [("outbound", JList [a; b])] T directions;
            source_path_loop h (Schema.model sch) value instance schema t rest).
  { unfold run, _validate_source_entry_fn. rewrite Hcds, Hsch, Hval. reflexivity. }
  rewrite Hrun, follow_outbound. fold name.
  split; [| split].
  - by intros ->.
  - intros fk n -> Hne Hn. rewrite bool_decide_eq_true_2 by done.
    unfold qualified_name. by rewrite Hsch, Hn.
  - intros e -> He. destruct e as [| []]; done.
Qed.

Lemma source_entry_outbound_step_errors_witness :
  let name := JList [JStr "s"; JStr "missing"] in
  let instance := JList [JDict [("outbound", name)]; JStr "X"] in
  _validate_source_entry_fn (demo_heap []) 1 (JBool true) instance JNull =
  Raise (keyword_error (Msg "%s not found in model fkeys" [name])
           (Some KeyError) (JBool true) instance JNull).
Proof.
  intros name instance.
  apply (proj1 (source_entry_outbound_step_errors (demo_heap []) 1
                  [Column.mk "A"; Column.mk "B"] demo_schema (JBool true) JNull
                  (JStr "s") (JStr "missing") [JStr "X"] eq_refl eq_refl eq_refl)).
  reflexivity.
Defined.
